(** * dagster-postgres event log storage: the notification/watch subsystem

    A shallow embedding of
    [dagster_postgres/event_log/event_log.py]: the writer's NOTIFY payload,
    the listener thread body [watcher_thread], the subscriber registry
    [PostgresEventWatcher] with its thread lifecycle, and the asset index
    upsert of [PostgresEventLogStorage.store_asset_event]. *)

From Stdlib Require Import ZArith Ascii String DecimalString DecimalZ.
From stdpp Require Import base gmap list strings.

Local Open Scope Z_scope.

(** ** Python builtins used by the payload code *)

(** What [int()] makes of a text that has characters outside ASCII.  That
    depends on the Unicode tables of the interpreter (the decimal digits
    and the white space of every script) and is taken as given; the
    program is verified for every such table. *)
Class UnicodeTables := int_beyond_ascii : string -> option Z.

(** A table for the sample inputs, which are all ASCII and never consult
    it. *)
#[global] Instance sample_tables : UnicodeTables | 100 := fun _ => None.

Module Py.

(** [s.split(sep)] for a one-character separator: every occurrence of
    [sep] cuts; [n] occurrences give [n + 1] parts, the empty string
    gives one empty part. *)
Fixpoint split (sep : ascii) (s : string) : list string :=
  match s with
  | EmptyString => [EmptyString]
  | String c rest =>
      if Ascii.eqb c sep then EmptyString :: split sep rest
      else match split sep rest with
           | [] => [String c EmptyString]
           | p :: ps => String c p :: ps
           end
  end.

(** The separator does not occur in the string. *)
Fixpoint lacks (sep : ascii) (s : string) : bool :=
  match s with
  | EmptyString => true
  | String c rest => negb (Ascii.eqb c sep) && lacks sep rest
  end.

(** [str(n)] for an [int]: decimal digits, a leading minus sign for
    negative numbers. *)
Definition str (n : Z) : string := NilZero.string_of_int (Z.to_int n).

(** The ASCII white space [int()] strips: tab, line feed, vertical tab,
    form feed, carriage return and the space. *)
Definition isspace (c : ascii) : bool :=
  let n := nat_of_ascii c in
  ((9 <=? n)%nat && (n <=? 13)%nat) || (n =? 32)%nat.

Definition isascii (c : ascii) : bool := (nat_of_ascii c <? 128)%nat.

Fixpoint all_ascii (s : string) : bool :=
  match s with
  | EmptyString => true
  | String c rest => isascii c && all_ascii rest
  end.

Fixpoint lstrip (s : string) : string :=
  match s with
  | EmptyString => EmptyString
  | String c rest => if isspace c then lstrip rest else s
  end.

Fixpoint rstrip (s : string) : string :=
  match s with
  | EmptyString => EmptyString
  | String c rest =>
      match rstrip rest with
      | EmptyString => if isspace c then EmptyString else String c EmptyString
      | kept => String c kept
      end
  end.

Definition strip (s : string) : string := rstrip (lstrip s).

(** The characters [str] writes for the digits of a number. *)
Definition isdecimal (c : ascii) : bool :=
  let n := nat_of_ascii c in (48 <=? n)%nat && (n <=? 57)%nat.

Fixpoint all_decimal (s : string) : bool :=
  match s with
  | EmptyString => true
  | String c rest => isdecimal c && all_decimal rest
  end.

(** The digits of a literal without the underscores that may group them:
    an underscore is allowed between two digits only, so not in front, not
    at the end and not next to another one.  [after_digit] says that the
    character before was a digit. *)
Fixpoint ungroup (after_digit : bool) (s : string) : option string :=
  match s with
  | EmptyString => if after_digit then Some EmptyString else None
  | String c rest =>
      if Ascii.eqb c "_" then
        if after_digit then ungroup false rest else None
      else String c <$> ungroup (isdecimal c) rest
  end.

(** [int(s)] in base ten.  For an ASCII text: surrounding white space is
    dropped, one sign is allowed, then come one or more digits, which
    single underscores may group.  [None] is [ValueError]. *)
Definition int `{UnicodeTables} (s : string) : option Z :=
  if all_ascii s then
    match strip s with
    | EmptyString => None
    | String c rest =>
        if Ascii.eqb c "-" then
          Z.opp <$> (Z.of_uint <$> (ungroup false rest ≫= NilZero.uint_of_string))
        else if Ascii.eqb c "+" then
          Z.of_uint <$> (ungroup false rest ≫= NilZero.uint_of_string)
        else Z.of_uint <$> (ungroup false (String c rest) ≫= NilZero.uint_of_string)
    end
  else int_beyond_ascii s.

End Py.

(** ** The notification payload *)

Definition CHANNEL_NAME : string := "run_events".

(** The delimiter of the payload, the character ["_"]. *)
Definition delim : ascii := "_"%char.

(** [store_event]: the NOTIFY argument [res[0] + "_" + str(res[1])] built
    from the returned [run_id] and [id] columns. *)
Definition notify_payload (run_id : string) (id : Z) : string :=
  run_id +:+ "_" +:+ Py.str id.

(** Errors the listener can die of, and the one [watch_run] raises. *)
Inductive PyError : Type :=
| ValueError            (* unpacking the split, or [int] *)
| LookupFailure         (* the point fetch found no row to deserialize *)
| WatcherNeverStarted   (* [Exception("Watcher thread never started")] *)
| DataError             (* the sequence of the [id] column is used up *)
| Uncaught (name : string). (* a raise that [except Exception] lets through *)

(** [run_id, index_str = notif.payload.split("_")]: exactly two parts, or
    the unpacking raises. *)
Definition unpack_payload (payload : string) : option (string * string) :=
  match Py.split delim payload with
  | [run_id; index_str] => Some (run_id, index_str)
  | _ => None
  end.

(** The decoding the listener performs on a payload: the unpacking above
    followed by [int(index_str)]. *)
Definition decode_payload `{UnicodeTables} (payload : string) : option (string * Z) :=
  match unpack_payload payload with
  | Some (run_id, index_str) =>
      match Py.int index_str with
      | Some index => Some (run_id, index)
      | None => None
      end
  | None => None
  end.

(** ** Events and the tables of the store *)

(** The sub-kinds of a dagster event that [store_event] looks at. *)
Inductive DagsterEventType : Type :=
| ASSET_MATERIALIZATION
| ASSET_OBSERVATION
| ASSET_MATERIALIZATION_PLANNED
| OTHER_EVENT.

Record DagsterEvent : Type := {
  event_type : DagsterEventType;
  asset_key : option string   (* [asset_key.to_string()], when there is one *)
}.

Definition is_step_materialization (d : DagsterEvent) : bool :=
  match event_type d with ASSET_MATERIALIZATION => true | _ => false end.
Definition is_asset_observation (d : DagsterEvent) : bool :=
  match event_type d with ASSET_OBSERVATION => true | _ => false end.
Definition is_asset_materialization_planned (d : DagsterEvent) : bool :=
  match event_type d with ASSET_MATERIALIZATION_PLANNED => true | _ => false end.

Record EventLogEntry : Type := {
  run_id : string;
  timestamp : Z;
  message : string;
  dagster_event : option DagsterEvent
}.

Definition is_dagster_event (e : EventLogEntry) : bool :=
  match dagster_event e with Some _ => true | None => false end.

(** [event.dagster_event.asset_key], for an entry that is a dagster event
    with a key. *)
Definition entry_asset_key (e : EventLogEntry) : option string :=
  match dagster_event e with
  | Some d => asset_key d
  | None => None
  end.

(** A row of [SqlEventLogStorageTable]: the [id], [run_id] and [event]
    columns. *)
Record LogRow : Type := {
  row_id : Z;
  row_run_id : string;
  row_event : EventLogEntry
}.

Inductive SqlValue : Type :=
| SqlNull
| SqlText (s : string)
| SqlTimestamp (t : Z).

(** A row of [AssetKeyTable]: the [asset_key] column and the other
    columns by name. *)
Record AssetRow : Type := {
  row_asset_key : string;
  row_columns : gmap string SqlValue
}.

(** The database both the writer and the listener talk to. *)
Record Database : Type := {
  event_logs : list LogRow;
  next_id : Z;                  (* the sequence behind the [id] column *)
  asset_keys : list AssetRow;
  notified : list string        (* payloads sent with NOTIFY, oldest first *)
}.

(** Modelled from the spec: the [id] of a row is a positive integer
    assigned at write time, strictly increasing.  The log table is
    declared outside this file, with [id] a 32-bit serial column: its
    sequence ends at this value. *)
Definition MAX_ID : Z := 2147483647.

Definition empty_database : Database :=
  {| event_logs := []; next_id := 1; asset_keys := []; notified := [] |}.

(** ** The asset index upsert *)

(** [INSERT ... VALUES (asset_key, **values) ON CONFLICT (asset_key)
    DO UPDATE SET **values]: a row with that key takes the new values in
    the columns named by [values] and keeps its other columns; without
    such a row one is added. *)
Fixpoint upsert (key : string) (values : gmap string SqlValue)
    (rows : list AssetRow) : list AssetRow :=
  match rows with
  | [] => [ {| row_asset_key := key; row_columns := values |} ]
  | r :: rest =>
      if decide (row_asset_key r = key)
      then {| row_asset_key := key; row_columns := values ∪ row_columns r |} :: rest
      else r :: upsert key values rest
  end.

(** [SELECT] of the row with a given key. *)
Definition asset_row (key : string) (rows : list AssetRow) : option (gmap string SqlValue) :=
  row_columns <$> find (fun r => bool_decide (row_asset_key r = key)) rows.


Section AssetIndex.

(** Inherited from [SqlEventLogStorage], not part of this file: the
    columns to write for an event, given whether the index columns of
    the asset table are there, and the database's own answer to whether a
    secondary index is enabled. *)
Variable _get_asset_entry_values : EventLogEntry -> bool -> gmap string SqlValue.
Variable super_has_secondary_index : string -> bool.
Variable ASSET_KEY_INDEX_COLS : string.

(** [has_secondary_index]: the answer is computed once per name and
    kept in [_secondary_index_cache]. *)
Definition has_secondary_index (name : string) (cache : gmap string bool)
    : bool * gmap string bool :=
  match cache !! name with
  | Some b => (b, cache)
  | None =>
      let b := super_has_secondary_index name in
      (b, <[name := b]> cache)
  end.

(** [store_asset_event].  The statement is built with
    [on_conflict_do_update], whose [set_] argument is the dictionary of
    the values: it raises
    [ValueError] for an empty dictionary before anything is sent to the
    database; the answer about the index columns has been cached by
    then.  The result is the cache, the database and the exception raised,
    if any. *)
Definition store_asset_event (event : EventLogEntry)
    (cache : gmap string bool) (db : Database)
    : gmap string bool * Database * option PyError :=
  match entry_asset_key event with
  | None => (cache, db, None)
  | Some key =>
      let '(ready, cache') := has_secondary_index ASSET_KEY_INDEX_COLS cache in
      let values := _get_asset_entry_values event ready in
      if decide (values = ∅) then (cache', db, Some ValueError)
      else
        (cache',
         {| event_logs := event_logs db;
            next_id := next_id db;
            asset_keys := upsert key values (asset_keys db);
            notified := notified db |},
         None)
  end.

(** [store_event]: insert returning [run_id] and [id], NOTIFY with the
    payload, then the asset index for the three asset sub-kinds.  When the
    sequence of the [id] column is used up the insert raises and nothing
    is written or sent; an exception out of [store_asset_event] comes
    after the row and the notification. *)
Definition store_event (event : EventLogEntry)
    (cache : gmap string bool) (db : Database)
    : gmap string bool * Database * option PyError :=
  let id := next_id db in
  if MAX_ID <? id then (cache, db, Some DataError)
  else
    let db1 :=
      {| event_logs := event_logs db ++
           [ {| row_id := id; row_run_id := run_id event; row_event := event |} ];
         next_id := id + 1;
         asset_keys := asset_keys db;
         notified := notified db ++ [notify_payload (run_id event) id] |} in
    match dagster_event event with
    | Some d =>
        if (is_step_materialization d || is_asset_observation d
            || is_asset_materialization_planned d)
           && bool_decide (is_Some (asset_key d))
        then store_asset_event event cache db1
        else (cache, db1, None)
    | None => (cache, db1, None)
    end.

(** A run of [store_event] calls, first event first, each made whether
    or not the one before raised. *)
Definition store_events (events : list EventLogEntry)
    (s : gmap string bool * Database) : gmap string bool * Database :=
  foldl (fun s event => (store_event event s.1 s.2).1) s events.

End AssetIndex.

(** ** Callbacks and what the listener does to the outside *)

(** A callable object; [object] is its identity.  A function, or any
    other callable that inherits its comparison from [object], is equal to
    itself only.  A bound method is a new object each time it is taken
    from its instance, and two bound methods are equal when they are the
    same function of the same instance.  (Callables of a class with an
    [__eq__] of its own are left out.) *)
Inductive Callback : Type :=
| Function (object : nat)
| BoundMethod (object : nat) (self func : nat).

(** The samples name a function by its number. *)
Coercion Function : nat >-> Callback.

(** [a == b] on callables; [a != b] is its negation. *)
Definition py_eq (a b : Callback) : bool :=
  match a, b with
  | Function i, Function j => (i =? j)%nat
  | BoundMethod _ s f, BoundMethod _ s' f' => (s =? s')%nat && (f =? f')%nat
  | _, _ => false
  end.

(** What a call of a callback ends in.  [except Exception] catches the
    instances of [Exception]; [SystemExit], [KeyboardInterrupt] and
    [GeneratorExit] derive from [BaseException] only and pass through. *)
Inductive Raise : Type :=
| ExceptionInstance (name : string)
| BaseExceptionOnly (name : string).

Inductive Outcome : Type :=
| Returns
| Raises (e : Raise).

Record Effects : Type := {
  invoked : list (Callback * EventLogEntry);  (* calls made, oldest first *)
  logged : list string                        (* [logging.exception] lines *)
}.

Definition no_effects : Effects := {| invoked := []; logged := [] |}.

(** The named tuple of [polling_event_watcher]. *)
Record CallbackAfterCursor : Type := mkCallbackAfterCursor {
  start_cursor : Z;
  callback : Callback
}.

(** Modelled from the spec: [deserialize_as] of [dagster.serdes] is not in
    the source file; the point fetch "fails with NotFound if the id does
    not exist", which is what it does with the [None] that [scalar()]
    returns for an empty result.  [None] here is that failure. *)
Definition fetch_event (table : list LogRow) (index : Z) : option EventLogEntry :=
  row_event <$> find (fun r => row_id r =? index) table.

Definition exception_line (run : string) : string :=
  "Exception in callback for event watch on run " +:+ run +:+ ".".

Section Listener.

(** How the registered callables behave: the outcome of a call may
    depend on the calls made so far.  A callable does not itself call
    into the watcher. *)
Variable behaviour : list (Callback * EventLogEntry) -> Callback -> EventLogEntry -> Outcome.
Context {tables : UnicodeTables}.

(** [for callback_with_cursor in handlers: ...] of [watcher_thread]. *)
Fixpoint run_callbacks (run : string) (index : Z) (event : EventLogEntry)
    (handlers : list CallbackAfterCursor) (fx : Effects) : Effects * option PyError :=
  match handlers with
  | [] => (fx, None)
  | h :: rest =>
      if start_cursor h <? index then
        let called :=
          {| invoked := invoked fx ++ [(callback h, event)]; logged := logged fx |} in
        match behaviour (invoked fx) (callback h) event with
        | Returns => run_callbacks run index event rest called
        | Raises (ExceptionInstance _) =>
            run_callbacks run index event rest
              {| invoked := invoked called;
                 logged := logged called ++ [exception_line run] |}
        | Raises (BaseExceptionOnly name) => (called, Some (Uncaught name))
        end
      else run_callbacks run index event rest fx
  end.

Inductive Step : Type :=
| Continue
| Break
| Die (e : PyError).

(** One turn of the [for notif in await_pg_notifications(...)] loop:
    [notif] is what the generator yields ([None] on a timeout),
    [exit_set] the state of the exit event, [table] the log table the
    point fetch reads. *)
Definition watcher_thread_step (table : list LogRow)
    (handlers_dict : gmap string (list CallbackAfterCursor))
    (exit_set : bool) (notif : option string) (fx : Effects) : Effects * Step :=
  match notif with
  | None => (fx, if exit_set then Break else Continue)
  | Some payload =>
      match unpack_payload payload with
      | None => (fx, Die ValueError)
      | Some (run, index_str) =>
          if bool_decide (is_Some (handlers_dict !! run)) then
            match Py.int index_str with
            | None => (fx, Die ValueError)
            | Some index =>
                let handlers := default [] (handlers_dict !! run) in
                match fetch_event table index with
                | None => (fx, Die LookupFailure)
                | Some event =>
                    match run_callbacks run index event handlers fx with
                    | (fx', None) => (fx', Continue)
                    | (fx', Some e) => (fx', Die e)
                    end
                end
            end
          else (fx, Continue)
      end
  end.

(** ** The watcher object, its threads and its events *)

Inductive ThreadStatus : Type :=
| Running
| Finished
| Died (e : PyError).

(** A started [threading.Thread] running [watcher_thread], with the two
    [threading.Event] objects made for it. *)
Record Thread : Type := {
  exit_flag : bool;       (* [watcher_thread_exit] *)
  started_flag : bool;    (* [watcher_thread_started] *)
  status : ThreadStatus
}.

(** The fields of a [PostgresEventWatcher], the threads it has started
    (a field that holds a thread or one of its events holds its
    position among them) and what they have done. *)
Record PostgresEventWatcher : Type := {
  _handlers_dict : gmap string (list CallbackAfterCursor);
  _watcher_thread_exit : option nat;
  _watcher_thread_started : option nat;
  _watcher_thread : option nat;
  threads : list Thread;
  effects : Effects
}.

(** [__init__]. *)
Definition new_watcher : PostgresEventWatcher :=
  {| _handlers_dict := ∅;
     _watcher_thread_exit := None;
     _watcher_thread_started := None;
     _watcher_thread := None;
     threads := [];
     effects := no_effects |}.

(** [event.wait(timeout)] followed by [event.is_set()], on a clock of
    ticks: [set_at] is the tick from now at which the event becomes set
    ([None]: never).  The caller is held for the first component and
    then sees the second. *)
Definition Event_wait (timeout : Z) (set_at : option Z) : Z * bool :=
  match set_at with
  | Some t =>
      if t <=? Z.max 0 timeout then (Z.max 0 t, true)
      else (Z.max 0 timeout, false)
  | None => (Z.max 0 timeout, false)
  end.

Definition register (run : string) (cursor : Z) (cb : Callback)
    (w : PostgresEventWatcher) : PostgresEventWatcher :=
  {| _handlers_dict :=
       <[run := default [] (_handlers_dict w !! run)
                  ++ [mkCallbackAfterCursor (cursor + 1) cb]]> (_handlers_dict w);
     _watcher_thread_exit := _watcher_thread_exit w;
     _watcher_thread_started := _watcher_thread_started w;
     _watcher_thread := _watcher_thread w;
     threads := threads w;
     effects := effects w |}.

(** [watch_run].  [listening_at] is the tick, counted from the start of
    the new thread, at which [await_pg_notifications] sets the started
    event; it is only looked at when the call starts a thread.  The
    result is the watcher afterwards, the exception raised if any, and
    the ticks the caller was held. *)
Definition watch_run (run : string) (cursor : Z) (cb : Callback)
    (start_timeout : Z) (listening_at : option Z)
    (w : PostgresEventWatcher) : PostgresEventWatcher * option PyError * Z :=
  match _watcher_thread w with
  | None =>
      let tid := length (threads w) in
      let '(held, is_set) := Event_wait start_timeout listening_at in
      let w1 :=
        {| _handlers_dict := _handlers_dict w;
           _watcher_thread_exit := Some tid;
           _watcher_thread_started := Some tid;
           _watcher_thread := Some tid;
           threads := threads w ++
             [ {| exit_flag := false; started_flag := is_set; status := Running |} ];
           effects := effects w |} in
      if is_set then (register run cursor cb w1, None, held)
      else (w1, Some WatcherNeverStarted, held)
  | Some _ => (register run cursor cb w, None, 0)
  end.

(** [unwatch_run]. *)
Definition unwatch_run (run : string) (handler : Callback)
    (w : PostgresEventWatcher) : PostgresEventWatcher :=
  match _handlers_dict w !! run with
  | Some handlers =>
      let kept := filter (fun h => py_eq (callback h) handler = false) handlers in
      {| _handlers_dict :=
           match kept with
           | [] => delete run (_handlers_dict w)
           | _ => <[run := kept]> (_handlers_dict w)
           end;
         _watcher_thread_exit := _watcher_thread_exit w;
         _watcher_thread_started := _watcher_thread_started w;
         _watcher_thread := _watcher_thread w;
         threads := threads w;
         effects := effects w |}
  | None => w
  end.

Definition with_threads (ts : list Thread) (fx : Effects)
    (w : PostgresEventWatcher) : PostgresEventWatcher :=
  {| _handlers_dict := _handlers_dict w;
     _watcher_thread_exit := _watcher_thread_exit w;
     _watcher_thread_started := _watcher_thread_started w;
     _watcher_thread := _watcher_thread w;
     threads := ts;
     effects := fx |}.

(** What a generator hands to the loop, and the log table at that
    moment. *)
Record Yield : Type := {
  notif : option string;
  table : list LogRow
}.

(** The thread [tid] takes one item from its generator.  A thread that
    has ended takes nothing, and the generator yields nothing before it
    has set the started event. *)
Definition listener_turn (tid : nat) (y : Yield)
    (w : PostgresEventWatcher) : PostgresEventWatcher :=
  match threads w !! tid with
  | Some t =>
      match status t with
      | Running =>
          if started_flag t then
            let '(fx, step) :=
              watcher_thread_step (table y) (_handlers_dict w) (exit_flag t)
                                  (notif y) (effects w) in
            let st := match step with
                      | Continue => Running
                      | Break => Finished
                      | Die e => Died e
                      end in
            with_threads
              (<[tid := {| exit_flag := exit_flag t;
                           started_flag := started_flag t;
                           status := st |}]> (threads w))
              fx w
          else w
      | _ => w
      end
  | None => w
  end.

(** The generator of thread [tid] is listening: it sets the started
    event. *)
Definition listener_listening (tid : nat) (w : PostgresEventWatcher) : PostgresEventWatcher :=
  with_threads
    (alter (fun t => {| exit_flag := exit_flag t; started_flag := true;
                        status := status t |}) tid (threads w))
    (effects w) w.

(** [event.set()] on the exit event of thread [tid]. *)
Definition set_exit (tid : nat) (w : PostgresEventWatcher) : PostgresEventWatcher :=
  with_threads
    (alter (fun t => {| exit_flag := true; started_flag := started_flag t;
                        status := status t |}) tid (threads w))
    (effects w) w.

(** Modelled from the spec: [await_pg_notifications] is not in the source
    file; its stream "supports external cancellation", so once the exit
    event is set it yields the finitely many items of [pending] and
    ends, and the [for] loop ends with it.  [thread.join()] returns when
    the thread has taken them and ended. *)
Definition join (tid : nat) (pending : list Yield)
    (w : PostgresEventWatcher) : PostgresEventWatcher :=
  let w' := foldl (fun w y => listener_turn tid y w) w pending in
  with_threads
    (alter (fun t => {| exit_flag := exit_flag t; started_flag := started_flag t;
                        status := match status t with
                                  | Running => Finished
                                  | s => s
                                  end |}) tid (threads w'))
    (effects w') w'.

Inductive CloseResult : Type :=
| Closed
| AttributeError.   (* [.set()] on a [None] exit event *)

(** [close]. *)
Definition close (pending : list Yield)
    (w : PostgresEventWatcher) : PostgresEventWatcher * CloseResult :=
  match _watcher_thread w with
  | Some tid =>
      match _watcher_thread_exit w with
      | Some ev =>
          let w' := join tid pending (set_exit ev w) in
          ({| _handlers_dict := _handlers_dict w';
              _watcher_thread_exit := None;
              _watcher_thread_started := _watcher_thread_started w';
              _watcher_thread := None;
              threads := threads w';
              effects := effects w' |}, Closed)
      | None => (w, AttributeError)
      end
  | None => (w, Closed)
  end.

(** ** The storage object's side of watching *)

Record PostgresEventLogStorage : Type := {
  _disposed : bool;
  _event_watcher : option PostgresEventWatcher;
  _secondary_index_cache : gmap string bool
}.

(** The watcher-related part of [__init__]. *)
Definition new_storage : PostgresEventLogStorage :=
  {| _disposed := false; _event_watcher := None; _secondary_index_cache := ∅ |}.

(** [watch]: the watcher is made on first use; [watch_run] is called
    with its default [start_timeout] of 15. *)
Definition watch (run : string) (cursor : Z) (cb : Callback)
    (listening_at : option Z)
    (s : PostgresEventLogStorage) : PostgresEventLogStorage * option PyError * Z :=
  let w := match _event_watcher s with
           | None => new_watcher
           | Some w => w
           end in
  let '(w', err, held) := watch_run run cursor cb 15 listening_at w in
  ({| _disposed := _disposed s;
      _event_watcher := Some w';
      _secondary_index_cache := _secondary_index_cache s |}, err, held).

(** [end_watch]. *)
Definition end_watch (run : string) (handler : Callback)
    (s : PostgresEventLogStorage) : PostgresEventLogStorage :=
  match _event_watcher s with
  | None => s
  | Some w =>
      {| _disposed := _disposed s;
         _event_watcher := Some (unwatch_run run handler w);
         _secondary_index_cache := _secondary_index_cache s |}
  end.

(** [dispose]. *)
Definition dispose (pending : list Yield)
    (s : PostgresEventLogStorage) : PostgresEventLogStorage * CloseResult :=
  if _disposed s then (s, Closed)
  else
    match _event_watcher s with
    | Some w =>
        let '(w', r) := close pending w in
        ({| _disposed := true;
            _event_watcher := Some w';
            _secondary_index_cache := _secondary_index_cache s |}, r)
    | None =>
        ({| _disposed := true;
            _event_watcher := None;
            _secondary_index_cache := _secondary_index_cache s |}, Closed)
    end.

(** ** Histories of a watcher *)

(** What can happen to a watcher: the three calls of its interface, made
    one after the other, and the moves of its listener threads.  A turn
    of the loop, from the notification to the last callback, is one
    move: an interface call falls before it or after it. *)
Inductive Op : Type :=
| Watch (run : string) (cursor : Z) (cb : Callback)
        (start_timeout : Z) (listening_at : option Z)
| Unwatch (run : string) (cb : Callback)
| Close (pending : list Yield)
| Listening (tid : nat)
| Turn (tid : nat) (y : Yield).

Definition apply_op (w : PostgresEventWatcher) (o : Op) : PostgresEventWatcher :=
  match o with
  | Watch run cursor cb start_timeout listening_at =>
      (watch_run run cursor cb start_timeout listening_at w).1.1
  | Unwatch run cb => unwatch_run run cb w
  | Close pending => (close pending w).1
  | Listening tid => listener_listening tid w
  | Turn tid y => listener_turn tid y w
  end.

Definition run_ops (ops : list Op) (w : PostgresEventWatcher) : PostgresEventWatcher :=
  foldl apply_op w ops.

Definition is_close (o : Op) : bool :=
  match o with Close _ => true | _ => false end.

(** The thread at position [tid] is alive. *)
Definition alive (w : PostgresEventWatcher) (tid : nat) : Prop :=
  exists t, threads w !! tid = Some t /\ status t = Running.

(** The calls the listener makes when it dispatches the event [event]
    with id [index] to [handlers], and the lines it logs, when no call
    raises past [except Exception]. *)
Definition calls_to (index : Z) (event : EventLogEntry)
    (handlers : list CallbackAfterCursor) : list (Callback * EventLogEntry) :=
  (fun h => (callback h, event)) <$>
    List.filter (fun h => start_cursor h <? index) handlers.

Fixpoint lines_for (run : string) (history calls : list (Callback * EventLogEntry))
    : list string :=
  match calls with
  | [] => []
  | (cb, event) :: rest =>
      match behaviour history cb event with
      | Returns => []
      | Raises _ => [exception_line run]
      end ++ lines_for run (history ++ [(cb, event)]) rest
  end.

(** No callback raises anything but instances of [Exception]. *)
Definition raises_exceptions_only : Prop :=
  forall history cb event name,
    behaviour history cb event <> Raises (BaseExceptionOnly name).

End Listener.

(** ** Predicates on watchers *)

(** What every history keeps true: a live thread is the one the watcher
    holds; a held thread comes with its exit event; no run is registered
    with an empty list. *)
Definition consistent (w : PostgresEventWatcher) : Prop :=
  (forall tid, alive w tid -> _watcher_thread w = Some tid) /\
  (forall tid, _watcher_thread w = Some tid ->
     _watcher_thread_exit w = Some tid /\ (tid < length (threads w))%nat) /\
  (forall run hs, _handlers_dict w !! run = Some hs -> hs <> []).

(** [w'] differs from [w] by moves of threads only: the fields are the
    same, no thread comes back to life and no exit event is cleared. *)
Definition moves (w w' : PostgresEventWatcher) : Prop :=
  _handlers_dict w' = _handlers_dict w /\
  _watcher_thread_exit w' = _watcher_thread_exit w /\
  _watcher_thread_started w' = _watcher_thread_started w /\
  _watcher_thread w' = _watcher_thread w /\
  length (threads w') = length (threads w) /\
  (forall i t', threads w' !! i = Some t' ->
     exists t, threads w !! i = Some t /\
       (exit_flag t = true -> exit_flag t' = true) /\
       (status t' = Running -> status t = Running)).

(** The started event becomes set within the time [wait] allows. *)
Definition signalled_within (listening_at : option Z) (timeout : Z) : Prop :=
  exists t, listening_at = Some t /\ t <= Z.max 0 timeout.

(** No callable equal to [cb] is subscribed to the run. *)
Definition not_subscribed (run : string) (cb : Callback) (w : PostgresEventWatcher) : Prop :=
  forall h, h ∈ default [] (_handlers_dict w !! run) -> py_eq (callback h) cb = false.

(** The operation subscribes a callable equal to [cb] to the run. *)
Definition rewatches (run : string) (cb : Callback) (o : Op) : Prop :=
  match o with
  | Watch run' _ cb' _ _ => run' = run /\ py_eq cb' cb = true
  | _ => False
  end.

(** ** Sample data *)

Module Samples.

(** Callbacks that always return. *)
Definition quiet : list (Callback * EventLogEntry) -> Callback -> EventLogEntry -> Outcome :=
  fun _ _ _ => Returns.

(** Callback 1 raises a [ValueError] on every call, the others return. *)
Definition first_raises : list (Callback * EventLogEntry) -> Callback -> EventLogEntry -> Outcome :=
  fun _ cb _ =>
    match cb with
    | Function 1 => Raises (ExceptionInstance "ValueError")
    | _ => Returns
    end.

Definition step_event (run : string) (t : Z) : EventLogEntry :=
  {| run_id := run; timestamp := t; message := "step"; dagster_event := None |}.

Definition asset_event (ty : DagsterEventType) (key run : string) (t : Z) : EventLogEntry :=
  {| run_id := run; timestamp := t; message := "asset";
     dagster_event := Some {| event_type := ty; asset_key := Some key |} |}.

(** The columns per kind of event, as the spec lists them: the event,
    its run and its time when the index columns are there, the legacy
    columns otherwise. *)
Definition entry_values (e : EventLogEntry) (ready : bool) : gmap string SqlValue :=
  let legacy : gmap string SqlValue :=
    match event_type <$> dagster_event e with
    | Some ASSET_MATERIALIZATION =>
        {[ "last_materialization" := SqlText (message e);
           "last_run_id" := SqlText (run_id e) ]}
    | Some ASSET_MATERIALIZATION_PLANNED =>
        {[ "last_run_id" := SqlText (run_id e) ]}
    | _ => ∅
    end in
  if ready
  then <["last_materialization_timestamp" := SqlTimestamp (timestamp e)]> legacy
  else legacy.

Definition index_enabled : string -> bool := fun _ => true.
Definition index_cols : string := "asset_key_index_columns".

Definition append (e : EventLogEntry) (cd : gmap string bool * Database)
    : gmap string bool * Database :=
  (store_event entry_values index_enabled index_cols e cd.1 cd.2).1.

(** Two events appended for run [r1]: they get the ids 1 and 2. *)
Definition two_events : Database :=
  (append (step_event "r1" 20) (append (step_event "r1" 10) (∅, empty_database))).2.

(** A third one. *)
Definition three_events : Database :=
  (append (step_event "r1" 30) (∅, two_events)).2.

(** [watch_run("r1", 1, cb)] with callback 7 on a new watcher whose
    listener comes up at once. *)
Definition watching_after_1 : PostgresEventWatcher :=
  (watch_run "r1" 1 7%nat 15 (Some 0) new_watcher).1.1.

(** The same with [start_cursor] 0. *)
Definition watching_after_0 : PostgresEventWatcher :=
  (watch_run "r1" 0 7%nat 15 (Some 0) new_watcher).1.1.

(** Callbacks 1 and 2 watch run [r1] from the start. *)
Definition two_watchers : PostgresEventWatcher :=
  (watch_run "r1" 0 2%nat 15 None
     (watch_run "r1" 0 1%nat 15 (Some 0) new_watcher).1.1).1.1.

Definition notification (payload : string) (db : Database) : Yield :=
  {| notif := Some payload; table := event_logs db |}.

(** Callback 7 watches run [r1]; the listener is then told of an id
    that is not in the table. *)
Definition lost_listener : list Op :=
  [ Watch "r1" 0 7%nat 15 (Some 0);
    Turn 0 (notification (notify_payload "r1" 7) two_events) ].

(** Callback 8 watches the run too, and the listener is told of
    event 2. *)
Definition watch_again : list Op :=
  [ Watch "r1" 0 8%nat 15 None;
    Turn 0 (notification (notify_payload "r1" 2) two_events) ].

(** Callbacks 1 and 2 watch run [r1]. *)
Definition two_watches : list Op :=
  [ Watch "r1" 0 1%nat 15 (Some 0); Watch "r1" 0 2%nat 15 None ].

End Samples.

(** ** More of the storage object *)

(** [enable_secondary_index]: the inherited method marks the index in the
    database; what is left to this class is to drop the cached answer for
    the name, if there is one. *)
Definition enable_secondary_index (name : string) (cache : gmap string bool)
    : gmap string bool :=
  match cache !! name with
  | Some _ => delete name cache
  | None => cache
  end.

(** Every row of the log has an id the sequence has already passed. *)
Definition ids_below (db : Database) : Prop :=
  Forall (fun r => row_id r < next_id db) (event_logs db).

Section StorageHistories.

Variable behaviour : list (Callback * EventLogEntry) -> Callback -> EventLogEntry -> Outcome.
Context {tables : UnicodeTables}.

(** A move of a listener thread, seen from the storage that owns the
    watcher. *)
Definition on_watcher (f : PostgresEventWatcher -> PostgresEventWatcher)
    (s : PostgresEventLogStorage) : PostgresEventLogStorage :=
  {| _disposed := _disposed s;
     _event_watcher := f <$> _event_watcher s;
     _secondary_index_cache := _secondary_index_cache s |}.

(** What can happen to the watching side of a storage: [watch],
    [end_watch] and [dispose], made one after the other, and the moves of
    the listener threads of its watcher. *)
Inductive StorageOp : Type :=
| StorageWatch (run : string) (cursor : Z) (cb : Callback) (listening_at : option Z)
| StorageEndWatch (run : string) (cb : Callback)
| StorageDispose (pending : list Yield)
| StorageListening (tid : nat)
| StorageTurn (tid : nat) (y : Yield).

Definition apply_storage_op (s : PostgresEventLogStorage) (o : StorageOp)
    : PostgresEventLogStorage :=
  match o with
  | StorageWatch run cursor cb listening_at => (watch run cursor cb listening_at s).1.1
  | StorageEndWatch run cb => end_watch run cb s
  | StorageDispose pending => (dispose behaviour pending s).1
  | StorageListening tid => on_watcher (listener_listening tid) s
  | StorageTurn tid y => on_watcher (listener_turn behaviour tid y) s
  end.

Definition run_storage_ops (ops : list StorageOp) (s : PostgresEventLogStorage)
    : PostgresEventLogStorage :=
  foldl apply_storage_op s ops.

End StorageHistories.

(** ** More sample data *)

Module MoreSamples.

(** Callback 1 leaves through [SystemExit] on every call, the others
    return. *)
Definition first_exits : list (Callback * EventLogEntry) -> Callback -> EventLogEntry -> Outcome :=
  fun _ cb _ =>
    match cb with
    | Function 1 => Raises (BaseExceptionOnly "SystemExit")
    | _ => Returns
    end.

(** One event of run [r1], then one of a run whose id has the delimiter
    in it. *)
Definition with_delimiter : Database :=
  (Samples.append (Samples.step_event "run_2" 20)
     (Samples.append (Samples.step_event "r1" 10) (∅, empty_database))).2.

(** The index columns are not there. *)
Definition index_disabled : string -> bool := fun _ => false.

(** Two bound-method objects of one method of one instance, as two
    evaluations of [instance.method] give them. *)
Definition method_once : Callback := BoundMethod 1 5 6.

Definition method_again : Callback := BoundMethod 2 5 6.

(** [watch_run("r1", 0, instance.method)] on a new watcher whose listener
    comes up at once. *)
Definition method_watcher : PostgresEventWatcher :=
  (watch_run "r1" 0 method_once 15 (Some 0) new_watcher).1.1.

End MoreSamples.

(** * Properties *)

(** ** Splitting, printing and reading numbers *)

Module PyFacts.
Import Py.

Lemma split_lacks sep s : lacks sep s = true -> split sep s = [s].
Proof.
  induction s as [|c s IH]; simpl; [done|].
  intros [Hc Hs]%andb_prop.
  destruct (Ascii.eqb c sep); [done|].
  by rewrite (IH Hs).
Qed.

Lemma split_app sep s t :
  lacks sep s = true ->
  split sep (s +:+ String sep t) = s :: split sep t.
Proof.
  induction s as [|c s IH]; simpl.
  - intros _. by rewrite Ascii.eqb_refl.
  - intros [Hc Hs]%andb_prop.
    destruct (Ascii.eqb c sep); [done|].
    by rewrite (IH Hs).
Qed.

Lemma split_nonempty sep s : (1 <= length (split sep s))%nat.
Proof.
  induction s as [|c s IH]; simpl; [lia|].
  destruct (Ascii.eqb c sep); simpl; [lia|].
  destruct (split sep s); simpl in *; lia.
Qed.

Lemma split_length_app sep s t :
  (length (split sep (s +:+ t)) + 1 =
   length (split sep s) + length (split sep t))%nat.
Proof.
  induction s as [|c s IH]; [change ("" +:+ t) with t; simpl; lia|simpl].
  destruct (Ascii.eqb c sep); simpl; [lia|].
  pose proof (split_nonempty sep s) as H1.
  pose proof (split_nonempty sep (s +:+ t)) as H2.
  destruct (split sep s), (split sep (s +:+ t)); simpl in *; lia.
Qed.

Lemma split_length_has sep s :
  lacks sep s = false -> (2 <= length (split sep s))%nat.
Proof.
  induction s as [|c s IH]; simpl; [done|].
  destruct (Ascii.eqb c sep); simpl.
  - intros _. pose proof (split_nonempty sep s). lia.
  - intros H. specialize (IH H). destruct (split sep s); simpl in *; lia.
Qed.

Lemma all_decimal_uint d : all_decimal (NilEmpty.string_of_uint d) = true.
Proof. induction d; simpl; auto. Qed.

Lemma all_decimal_uint0 d : all_decimal (NilZero.string_of_uint d) = true.
Proof. destruct d; try apply all_decimal_uint; reflexivity. Qed.

Lemma isdecimal_not_delim c : isdecimal c = true -> Ascii.eqb c delim = false.
Proof.
  intros H. destruct (Ascii.eqb_spec c delim) as [->|]; [|done].
  discriminate H.
Qed.

Lemma isdecimal_not_space c : isdecimal c = true -> isspace c = false.
Proof.
  unfold isdecimal, isspace. intros [H1 H2]%andb_prop.
  apply Nat.leb_le in H1. apply Nat.leb_le in H2.
  apply orb_false_intro.
  - apply andb_false_iff. right. apply Nat.leb_gt. lia.
  - apply Nat.eqb_neq. lia.
Qed.

Lemma all_decimal_lacks s : all_decimal s = true -> lacks delim s = true.
Proof.
  induction s as [|c s IH]; simpl; [done|].
  intros [Hc Hs]%andb_prop. by rewrite (isdecimal_not_delim _ Hc), IH.
Qed.

Lemma rstrip_decimal s : all_decimal s = true -> rstrip s = s.
Proof.
  induction s as [|c s IH]; simpl; [done|].
  intros [Hc Hs]%andb_prop. rewrite (IH Hs).
  destruct s; [|done]. by rewrite (isdecimal_not_space _ Hc).
Qed.

Lemma strip_decimal s : all_decimal s = true -> strip s = s.
Proof.
  intros H. unfold strip.
  destruct s as [|c s]; [done|].
  simpl in H. apply andb_prop in H as [Hc Hs].
  simpl lstrip. rewrite (isdecimal_not_space _ Hc).
  apply rstrip_decimal. simpl. by rewrite Hc, Hs.
Qed.

Lemma strip_minus s : all_decimal s = true -> strip (String "-" s) = String "-" s.
Proof.
  intros H. unfold strip. simpl lstrip. change (isspace "-") with false.
  simpl. rewrite (rstrip_decimal _ H). by destruct s.
Qed.

Lemma str_lacks n : lacks delim (str n) = true.
Proof.
  unfold str. destruct (Z.to_int n) as [d|d]; simpl.
  - apply all_decimal_lacks, all_decimal_uint0.
  - apply all_decimal_lacks, all_decimal_uint0.
Qed.

Lemma uint_roundtrip d :
  Z.of_uint <$> NilZero.uint_of_string (NilZero.string_of_uint d) = Some (Z.of_uint d).
Proof.
  destruct d; [done|rewrite NilZero.usu; done ..].
Qed.

Lemma isdecimal_ascii c : isdecimal c = true -> isascii c = true.
Proof.
  unfold isdecimal, isascii. intros [H1 H2]%andb_prop.
  apply Nat.leb_le in H2. apply Nat.ltb_lt. lia.
Qed.

Lemma all_decimal_ascii s : all_decimal s = true -> all_ascii s = true.
Proof.
  induction s as [|c s IH]; simpl; [done|].
  intros [Hc Hs]%andb_prop. by rewrite (isdecimal_ascii _ Hc), IH.
Qed.

Lemma ungroup_decimal s b :
  all_decimal s = true -> s <> EmptyString -> ungroup b s = Some s.
Proof.
  revert b. induction s as [|c s IH]; intros b Hs Hne; [done|].
  simpl in *. apply andb_prop in Hs as [Hc Hs].
  assert (Ascii.eqb c "_" = false) as -> by (by apply isdecimal_not_delim).
  rewrite Hc. destruct s as [|c' s]; [done|]. by rewrite IH.
Qed.

Lemma string_of_uint0_nonempty d : NilZero.string_of_uint d <> EmptyString.
Proof. by destruct d. Qed.

Lemma int_str `{UnicodeTables} n : int (str n) = Some n.
Proof.
  unfold int, str.
  transitivity (Some (Z.of_int (Z.to_int n))); [|by rewrite DecimalZ.of_to].
  destruct (Z.to_int n) as [d|d]; simpl NilZero.string_of_int.
  - pose proof (all_decimal_uint0 d) as Hd.
    rewrite (all_decimal_ascii _ Hd), (strip_decimal _ Hd).
    pose proof (uint_roundtrip d) as Hr.
    pose proof (ungroup_decimal _ false Hd (string_of_uint0_nonempty d)) as Hu.
    destruct (NilZero.string_of_uint d) as [|c r] eqn:E; [by destruct d|].
    simpl in Hd. apply andb_prop in Hd as [Hc _].
    assert (Ascii.eqb c "-" = false) as ->.
    { destruct (Ascii.eqb_spec c "-") as [->|]; [discriminate Hc|done]. }
    assert (Ascii.eqb c "+" = false) as ->.
    { destruct (Ascii.eqb_spec c "+") as [->|]; [discriminate Hc|done]. }
    rewrite Hu. exact Hr.
  - pose proof (all_decimal_uint0 d) as Hd.
    simpl all_ascii. rewrite (all_decimal_ascii _ Hd). simpl.
    rewrite (strip_minus _ Hd), Ascii.eqb_refl.
    rewrite (ungroup_decimal _ false Hd (string_of_uint0_nonempty d)).
    change (Z.opp <$> (Z.of_uint <$> NilZero.uint_of_string (NilZero.string_of_uint d))
            = Some (Z.of_int (Decimal.Neg d))).
    by rewrite (uint_roundtrip d).
Qed.

End PyFacts.

(** ** The payload *)

Lemma unpack_notify_payload run id :
  Py.lacks delim run = true ->
  unpack_payload (notify_payload run id) = Some (run, Py.str id).
Proof.
  intros H. unfold unpack_payload, notify_payload.
  change ("_" +:+ Py.str id) with (String delim (Py.str id)).
  rewrite (PyFacts.split_app _ _ _ H).
  by rewrite (PyFacts.split_lacks _ _ (PyFacts.str_lacks id)).
Qed.

Lemma unpack_notify_payload_delim run id :
  Py.lacks delim run = false ->
  unpack_payload (notify_payload run id) = None.
Proof.
  intros H. unfold unpack_payload, notify_payload.
  pose proof (PyFacts.split_length_app delim run ("_" +:+ Py.str id)) as Hl.
  pose proof (PyFacts.split_length_has delim run H) as H1.
  assert (2 <= length (Py.split delim ("_" +:+ Py.str id)))%nat as H2.
  { apply PyFacts.split_length_has. reflexivity. }
  destruct (Py.split delim (run +:+ "_" +:+ Py.str id)) as [|a [|b [|c l]]];
    simpl in *; try done; lia.
Qed.

Lemma decode_notify_payload `{UnicodeTables} run id :
  Py.lacks delim run = true ->
  decode_payload (notify_payload run id) = Some (run, id).
Proof.
  intros Hrun. unfold decode_payload.
  by rewrite (unpack_notify_payload _ _ Hrun), PyFacts.int_str.
Qed.

Section Payload.

Context {tables : UnicodeTables}.

(** C9: a run id without the delimiter and an event id, written into a
    payload by the writer, are read back by the listener as the same run
    id and the same event id; a run id that contains the delimiter is not
    read back at all (the unpacking fails), so the precondition is needed. *)
Theorem payload_roundtrip (run : string) (id : Z) :
  (Py.lacks delim run = true ->
   decode_payload (notify_payload run id) = Some (run, id)) /\
  (Py.lacks delim run = false ->
   decode_payload (notify_payload run id) = None).
Proof.
  split; intros H.
  - by apply decode_notify_payload.
  - unfold decode_payload. by rewrite (unpack_notify_payload_delim _ _ H).
Qed.

End Payload.

Lemma payload_roundtrip_witness :
  Py.lacks delim "r1" = true /\
  decode_payload (notify_payload "r1" 42) = Some ("r1", 42).
Proof.
  split; [reflexivity|].
  apply (proj1 (payload_roundtrip "r1" 42)). reflexivity.
Defined.

(** ** The dispatch loop *)

Section ListenerFacts.

Variable behaviour : list (Callback * EventLogEntry) -> Callback -> EventLogEntry -> Outcome.
Context {tables : UnicodeTables}.


Lemma calls_to_app index event hs1 hs2 :
  calls_to index event (hs1 ++ hs2) =
  calls_to index event hs1 ++ calls_to index event hs2.
Proof. unfold calls_to. by rewrite List.filter_app, fmap_app. Qed.

Lemma calls_to_callback index event hs c e :
  (c, e) ∈ calls_to index event hs ->
  e = event /\ exists h, h ∈ hs /\ callback h = c /\ start_cursor h < index.
Proof.
  unfold calls_to. intros (h & [= -> ->] & Hin)%list_elem_of_fmap.
  apply list_elem_of_In, List.filter_In in Hin as [Hin Hlt].
  split; [done|]. exists h. split; [by apply list_elem_of_In|].
  split; [done|]. by apply Z.ltb_lt.
Qed.

Lemma lines_for_app run history calls1 calls2 :
  lines_for behaviour run history (calls1 ++ calls2) =
  lines_for behaviour run history calls1 ++ lines_for behaviour run (history ++ calls1) calls2.
Proof.
  revert history. induction calls1 as [|[cb e] calls1 IH]; intros history; simpl.
  - by rewrite app_nil_r.
  - rewrite IH. rewrite <- !app_assoc. simpl. done.
Qed.

(** Whatever the callbacks do, a dispatch only adds calls, each to a
    subscriber of the list whose cursor is below the index, in the order
    of the list, and only adds log lines. *)
Lemma run_callbacks_calls run index event handlers fx :
  exists calls lines,
    invoked (run_callbacks behaviour run index event handlers fx).1 = invoked fx ++ calls /\
    logged (run_callbacks behaviour run index event handlers fx).1 = logged fx ++ lines /\
    calls `prefix_of` calls_to index event handlers.
Proof.
  revert fx. induction handlers as [|h rest IH]; intros fx; simpl.
  - exists [], []. rewrite !app_nil_r. done.
  - unfold calls_to. simpl. destruct (start_cursor h <? index) eqn:Hlt.
    + destruct (behaviour (invoked fx) (callback h) event) as [|[name|name]].
      * edestruct IH as (calls & lines & -> & -> & Hp). simpl.
        exists ((callback h, event) :: calls), lines.
        rewrite <- app_assoc. split; [done|]. split; [done|].
        by apply prefix_cons.
      * edestruct IH as (calls & lines & -> & -> & Hp). simpl.
        exists ((callback h, event) :: calls), (exception_line run :: lines).
        rewrite <- !app_assoc. split; [done|]. split; [done|].
        by apply prefix_cons.
      * simpl. exists [(callback h, event)], []. rewrite app_nil_r.
        split; [done|]. split; [done|]. apply prefix_cons, prefix_nil.
    + apply IH.
Qed.

(** When no callback raises past [except Exception], the dispatch calls
    every subscriber whose cursor is below the index, logs one line for
    each call that raised, and ends normally. *)
Lemma run_callbacks_complete run index event handlers fx :
  raises_exceptions_only behaviour ->
  run_callbacks behaviour run index event handlers fx =
  ({| invoked := invoked fx ++ calls_to index event handlers;
      logged := logged fx ++
                lines_for behaviour run (invoked fx) (calls_to index event handlers) |},
   None).
Proof.
  intros Hexc. revert fx.
  induction handlers as [|h rest IH]; intros fx; simpl.
  - unfold calls_to. simpl. rewrite !app_nil_r. by destruct fx.
  - unfold calls_to. simpl. destruct (start_cursor h <? index) eqn:Hlt.
    + simpl. fold (calls_to index event rest).
      destruct (behaviour (invoked fx) (callback h) event) as [|[name|name]] eqn:Hb.
      * rewrite IH. simpl. by rewrite <- !app_assoc.
      * rewrite IH. simpl. by rewrite <- !app_assoc.
      * by apply Hexc in Hb.
    + apply IH.
Qed.

Lemma decode_payload_Some payload run index :
  decode_payload payload = Some (run, index) ->
  exists index_str,
    unpack_payload payload = Some (run, index_str) /\
    Py.int index_str = Some index.
Proof.
  unfold decode_payload.
  destruct (unpack_payload payload) as [[r s]|]; [|done].
  destruct (Py.int s) eqn:Hs; [|done].
  intros [= -> ->]. by exists s.
Qed.

(** A thread that is not running, or not yet listening, takes nothing. *)
Lemma listener_turn_stopped tid y w :
  ~ alive w tid -> listener_turn behaviour tid y w = w.
Proof.
  intros Hna. unfold listener_turn.
  destruct (threads w !! tid) as [t|] eqn:Ht; [|done].
  destruct (status t) eqn:Hs; try done.
  destruct Hna. by exists t.
Qed.

(** A turn on a notification that decodes, for a run with subscribers,
    whose event is in the table. *)
Lemma listener_turn_dispatch tid t y w run index handlers event :
  threads w !! tid = Some t -> status t = Running -> started_flag t = true ->
  (exists payload, notif y = Some payload /\
                   decode_payload payload = Some (run, index)) ->
  _handlers_dict w !! run = Some handlers ->
  fetch_event (table y) index = Some event ->
  listener_turn behaviour tid y w =
  let r := run_callbacks behaviour run index event handlers (effects w) in
  with_threads
    (<[tid := {| exit_flag := exit_flag t; started_flag := started_flag t;
                 status := match r.2 with None => Running | Some e => Died e end |}]>
       (threads w))
    r.1 w.
Proof.
  intros Ht Hs Hst (payload & Hn & (index_str & Hu & Hi)%decode_payload_Some) Hd Hf.
  unfold listener_turn, watcher_thread_step.
  rewrite Ht, Hs, Hst, Hn, Hu, Hd. simpl.
  rewrite Hi, Hf.
  by destruct (run_callbacks behaviour run index event handlers (effects w)) as [fx' [e|]].
Qed.

End ListenerFacts.

(** ** Delivery against the cursor *)

Lemma watch_run_registered run c cb timeout la w w' held :
  watch_run run c cb timeout la w = (w', None, held) ->
  _handlers_dict w' =
    <[run := default [] (_handlers_dict w !! run) ++ [mkCallbackAfterCursor (c + 1) cb]]>
      (_handlers_dict w) /\
  effects w' = effects w.
Proof.
  unfold watch_run.
  destruct (_watcher_thread w).
  - by intros [= <- <-].
  - destruct (Event_wait timeout la) as [h []]; [|done].
    by intros [= <- <-].
Qed.

(** C1, as stated, fails: with [start_cursor] 1 the subscription holds the
    cursor 2, and the listener's test [2 < 2] keeps event 2 from the
    callback although [2 > 1]. *)
Lemma watch_delivery_counterexample :
  let w := Samples.watching_after_1 in
  let db := Samples.two_events in
  let w' := listener_turn Samples.quiet 0
              (Samples.notification (notify_payload "r1" 2) db) w in
  row_id <$> event_logs db = [1; 2] /\
  _handlers_dict w !! "r1" = Some [mkCallbackAfterCursor 2 7%nat] /\
  alive w' 0 /\
  invoked (effects w') = [] /\
  ~ ((Function 7, Samples.step_event "r1" 20) ∈ invoked (effects w') <-> 2 > 1).
Proof.
  repeat split; try (vm_compute; reflexivity).
  - eexists. split; vm_compute; reflexivity.
  - intros [_ H]. specialize (H ltac:(lia)).
    vm_compute in H. by apply elem_of_nil in H.
Qed.

Section Delivery.

Variable behaviour : list (Callback * EventLogEntry) -> Callback -> EventLogEntry -> Outcome.
Context {tables : UnicodeTables}.

(** C1, amended: a subscription registered by [watch_run] with
    [start_cursor] [c] holds the cursor [c + 1].  When a listening thread
    takes the notification of event [id] for that run, it makes the calls
    due to the earlier subscribers of the run and then calls the new
    callback exactly when [c + 1 < id]; for a callback not subscribed to
    the run before, it is called in that turn if and only if
    [id > c + 1]. *)
Theorem watch_delivery w w' held run c cb timeout la tid t tbl id event :
  raises_exceptions_only behaviour ->
  watch_run run c cb timeout la w = (w', None, held) ->
  threads w' !! tid = Some t -> status t = Running -> started_flag t = true ->
  Py.lacks delim run = true ->
  fetch_event tbl id = Some event ->
  let before := default [] (_handlers_dict w !! run) in
  let w'' := listener_turn behaviour tid
               {| notif := Some (notify_payload run id); table := tbl |} w' in
  invoked (effects w'') =
    invoked (effects w') ++ calls_to id event before ++
    (if bool_decide (c + 1 < id) then [(cb, event)] else []) /\
  ((forall h, h ∈ before -> callback h <> cb) ->
   ((cb, event) ∈ drop (length (invoked (effects w'))) (invoked (effects w''))
    <-> id > c + 1)).
Proof.
  intros Hexc Hw Ht Hs Hst Hrun Hf before w''.
  destruct (watch_run_registered _ _ _ _ _ _ _ _ Hw) as [Hd Hfx].
  assert (_handlers_dict w' !! run =
          Some (before ++ [mkCallbackAfterCursor (c + 1) cb])) as Hl.
  { rewrite Hd. apply lookup_insert_eq. }
  assert (invoked (effects w'') =
    invoked (effects w') ++ calls_to id event before ++
    (if bool_decide (c + 1 < id) then [(cb, event)] else [])) as Heq.
  { subst w''.
    rewrite (listener_turn_dispatch behaviour tid t _ w' run id
               (before ++ [mkCallbackAfterCursor (c + 1) cb]) event Ht Hs Hst); [|
      eexists; split; [done|]; by apply decode_notify_payload | exact Hl | exact Hf].
    rewrite run_callbacks_complete by done. simpl.
    rewrite calls_to_app. f_equal. f_equal.
    unfold calls_to. simpl.
    destruct (Z.ltb_spec (c + 1) id).
    - by rewrite bool_decide_eq_true_2.
    - rewrite bool_decide_eq_false_2 by lia. done. }
  split; [exact Heq|].
  intros Hfresh. rewrite Heq, drop_app_length.
  rewrite elem_of_app. split.
  - intros [Hin | Hin].
    + apply calls_to_callback in Hin as (_ & h & Hh & Hcb & _).
      by destruct (Hfresh h Hh).
    + case_bool_decide; [lia|]. by apply elem_of_nil in Hin.
  - intros Hgt. right. rewrite bool_decide_eq_true_2 by lia.
    apply list_elem_of_singleton. done.
Qed.

(** C3, amended: a turn that dispatches an event to the subscribers of a
    run, with callbacks that raise instances of [Exception]: every subscriber
    whose cursor is below the event id is called, in order, whether or
    not an earlier one raised; each raise is logged; the registry and the
    thread are as before, so the next message is taken. *)
Theorem callback_isolation w tid t y payload run index handlers event :
  raises_exceptions_only behaviour ->
  threads w !! tid = Some t -> status t = Running -> started_flag t = true ->
  notif y = Some payload -> decode_payload payload = Some (run, index) ->
  _handlers_dict w !! run = Some handlers ->
  fetch_event (table y) index = Some event ->
  let w' := listener_turn behaviour tid y w in
  let calls := calls_to index event handlers in
  invoked (effects w') = invoked (effects w) ++ calls /\
  logged (effects w') =
    logged (effects w) ++ lines_for behaviour run (invoked (effects w)) calls /\
  _handlers_dict w' = _handlers_dict w /\
  threads w' = threads w /\
  alive w' tid /\
  (forall pre h post name,
     handlers = pre ++ h :: post ->
     start_cursor h < index ->
     behaviour (invoked (effects w) ++ calls_to index event pre) (callback h) event
       = Raises (ExceptionInstance name) ->
     exception_line run ∈ drop (length (logged (effects w))) (logged (effects w')) /\
     (forall h', h' ∈ post -> start_cursor h' < index ->
        (callback h', event) ∈ drop (length (invoked (effects w))) (invoked (effects w'))) /\
     h ∈ default [] (_handlers_dict w' !! run)).
Proof.
  intros Hexc Ht Hs Hst Hn Hdec Hd Hf w' calls.
  assert (w' = with_threads (threads w)
                 {| invoked := invoked (effects w) ++ calls;
                    logged := logged (effects w) ++
                              lines_for behaviour run (invoked (effects w)) calls |} w)
    as Hw'.
  { subst w'.
    rewrite (listener_turn_dispatch behaviour tid t y w run index handlers event)
      by eauto.
    rewrite run_callbacks_complete by done. simpl.
    f_equal. rewrite <- Hs.
    apply list_insert_id. by destruct t. }
  rewrite Hw'. simpl.
  split; [done|]. split; [done|]. split; [done|]. split; [done|].
  split; [by exists t|].
  intros pre h post name -> Hlt Hb.
  rewrite !drop_app_length. subst calls.
  rewrite calls_to_app, lines_for_app.
  assert (calls_to index event (h :: post) =
          (callback h, event) :: calls_to index event post) as ->.
  { unfold calls_to. simpl. by rewrite (proj2 (Z.ltb_lt _ _) Hlt). }
  split; [|split].
  - simpl. rewrite Hb. rewrite elem_of_app. right. simpl. apply list_elem_of_here.
  - intros h' Hin Hlt'. rewrite elem_of_app. right.
    apply list_elem_of_further. unfold calls_to.
    apply list_elem_of_fmap. exists h'. split; [done|].
    apply list_elem_of_In, List.filter_In. split; [by apply list_elem_of_In|].
    by apply Z.ltb_lt.
  - rewrite Hd. simpl. rewrite elem_of_app. right. apply list_elem_of_here.
Qed.

(** C2, amended: when the point fetch finds no row for the notified id
    of a run that has subscribers, nothing is logged and nobody is
    called; the failure ends the listener thread, which takes no further
    message. *)
Theorem lookup_failure_ends_listener w tid t y payload run index :
  threads w !! tid = Some t -> status t = Running -> started_flag t = true ->
  notif y = Some payload -> decode_payload payload = Some (run, index) ->
  is_Some (_handlers_dict w !! run) ->
  fetch_event (table y) index = None ->
  let w' := listener_turn behaviour tid y w in
  effects w' = effects w /\
  _handlers_dict w' = _handlers_dict w /\
  status <$> threads w' !! tid = Some (Died LookupFailure) /\
  forall later, foldl (fun w y => listener_turn behaviour tid y w) w' later = w'.
Proof.
  intros Ht Hs Hst Hn (index_str & Hu & Hi)%decode_payload_Some [hs Hd] Hf w'.
  assert (w' = with_threads
                 (<[tid := {| exit_flag := exit_flag t; started_flag := started_flag t;
                              status := Died LookupFailure |}]> (threads w))
                 (effects w) w) as Hw'.
  { subst w'. unfold listener_turn, watcher_thread_step.
    rewrite Ht, Hs, Hst, Hn, Hu, Hd. simpl. by rewrite Hi, Hf. }
  assert (status <$> threads w' !! tid = Some (Died LookupFailure)) as Hdead.
  { rewrite Hw'. simpl. rewrite list_lookup_insert_eq; [done|].
    by apply lookup_lt_Some in Ht. }
  split; [by rewrite Hw'|]. split; [by rewrite Hw'|]. split; [done|].
  intros later. induction later as [|y' later IH]; simpl; [done|].
  rewrite listener_turn_stopped; [done|].
  intros (t' & Ht' & Hs'). rewrite Ht' in Hdead. simpl in Hdead. congruence.
Qed.

End Delivery.

(** ** The theorems at sample inputs *)

Lemma quiet_raises_exceptions_only : raises_exceptions_only Samples.quiet.
Proof. intros history cb event name. discriminate. Qed.

Lemma first_raises_exceptions_only : raises_exceptions_only Samples.first_raises.
Proof.
  intros history cb event name. unfold Samples.first_raises.
  destruct cb as [[|[|i]]|]; discriminate.
Qed.

Lemma watch_delivery_witness :
  let event := Samples.step_event "r1" 30 in
  let w' := Samples.watching_after_1 in
  let w'' := listener_turn Samples.quiet 0
               (Samples.notification (notify_payload "r1" 3) Samples.three_events) w' in
  raises_exceptions_only Samples.quiet /\
  Py.lacks delim "r1" = true /\
  fetch_event (event_logs Samples.three_events) 3 = Some event /\
  invoked (effects w'') = [(Function 7, event)] /\
  ((Function 7, event) ∈ invoked (effects w'') <-> 3 > 1 + 1).
Proof.
  intros event w' w''.
  pose proof (watch_delivery Samples.quiet new_watcher w' 0 "r1" 1 7%nat 15 (Some 0)
                0%nat {| exit_flag := false; started_flag := true; status := Running |}
                (event_logs Samples.three_events) 3 event
                quiet_raises_exceptions_only eq_refl eq_refl eq_refl eq_refl
                eq_refl eq_refl) as [H1 H2].
  split; [exact quiet_raises_exceptions_only|].
  split; [reflexivity|]. split; [reflexivity|].
  split; [exact H1|].
  apply H2. intros h Hh. vm_compute in Hh. by apply elem_of_nil in Hh.
Defined.

Lemma callback_isolation_witness :
  let event := Samples.step_event "r1" 20 in
  let w := Samples.two_watchers in
  let w' := listener_turn Samples.first_raises 0
              (Samples.notification (notify_payload "r1" 2) Samples.two_events) w in
  Samples.first_raises [] 1%nat event = Raises (ExceptionInstance "ValueError") /\
  invoked (effects w') = [(Function 1, event); (Function 2, event)] /\
  logged (effects w') = ["Exception in callback for event watch on run r1."] /\
  _handlers_dict w' = _handlers_dict w /\
  alive w' 0.
Proof.
  intros event w w'.
  pose proof (callback_isolation Samples.first_raises w 0%nat
                {| exit_flag := false; started_flag := true; status := Running |}
                (Samples.notification (notify_payload "r1" 2) Samples.two_events)
                (notify_payload "r1" 2) "r1" 2
                [mkCallbackAfterCursor 1 1%nat; mkCallbackAfterCursor 1 2%nat] event
                first_raises_exceptions_only eq_refl eq_refl eq_refl eq_refl
                eq_refl eq_refl eq_refl) as (H1 & H2 & H3 & _ & H5 & _).
  split; [reflexivity|].
  split; [exact H1|]. split; [exact H2|]. split; [exact H3|]. exact H5.
Defined.

(** C3, as stated, fails: a callback that leaves through [SystemExit],
    which is an exception but no instance of [Exception], is not caught:
    nothing is logged, the second subscriber of the run, whose cursor
    qualifies, is not called, and the listener thread ends, so that the
    same notification sent again calls nobody. *)
Lemma callback_isolation_counterexample :
  let event := Samples.step_event "r1" 20 in
  let w := Samples.two_watchers in
  let y := Samples.notification (notify_payload "r1" 2) Samples.two_events in
  let w' := listener_turn MoreSamples.first_exits 0 y w in
  _handlers_dict w !! "r1"
    = Some [mkCallbackAfterCursor 1 1%nat; mkCallbackAfterCursor 1 2%nat] /\
  alive w 0 /\
  MoreSamples.first_exits [] 1%nat event = Raises (BaseExceptionOnly "SystemExit") /\
  invoked (effects w') = [(Function 1, event)] /\
  logged (effects w') = [] /\
  ~ alive w' 0 /\
  listener_turn MoreSamples.first_exits 0 y w' = w'.
Proof.
  repeat split; try (vm_compute; reflexivity).
  - eexists. split; vm_compute; reflexivity.
  - intros (t & Ht & Hs). vm_compute in Ht. injection Ht as <-. discriminate Hs.
Qed.

(** C2, as stated, fails: a notification for an id that is not in the
    table, for a run with a subscriber, ends the listener thread; nothing
    is logged, and the notification of event 2 that follows, which the
    thread would have delivered, is not taken. *)
Lemma lookup_failure_counterexample :
  let w := Samples.watching_after_0 in
  let db := Samples.two_events in
  let w' := listener_turn Samples.quiet 0
              (Samples.notification (notify_payload "r1" 7) db) w in
  let w'' := listener_turn Samples.quiet 0
               (Samples.notification (notify_payload "r1" 2) db) w' in
  fetch_event (event_logs db) 7 = None /\
  status <$> threads w' !! 0%nat = Some (Died LookupFailure) /\
  logged (effects w') = [] /\
  ~ alive w' 0 /\
  invoked (effects w'') = [] /\
  invoked (effects (listener_turn Samples.quiet 0
                      (Samples.notification (notify_payload "r1" 2) db) w))
    = [(Function 7, Samples.step_event "r1" 20)].
Proof.
  repeat split; try (vm_compute; reflexivity).
  intros (t & Ht & Hs). vm_compute in Ht. injection Ht as <-. discriminate Hs.
Qed.

Lemma lookup_failure_ends_listener_witness :
  let w := Samples.watching_after_0 in
  let y := Samples.notification (notify_payload "r1" 7) Samples.two_events in
  let w' := listener_turn Samples.quiet 0 y w in
  fetch_event (table y) 7 = None /\
  effects w' = effects w /\
  status <$> threads w' !! 0%nat = Some (Died LookupFailure).
Proof.
  intros w y w'.
  pose proof (lookup_failure_ends_listener Samples.quiet w 0%nat
                {| exit_flag := false; started_flag := true; status := Running |}
                y (notify_payload "r1" 7) "r1" 7
                eq_refl eq_refl eq_refl eq_refl eq_refl
                (ex_intro _ [mkCallbackAfterCursor 1 7%nat] eq_refl) eq_refl)
    as (H1 & _ & H3 & _).
  split; [reflexivity|]. split; [exact H1|exact H3].
Defined.

(** ** The asset index *)

Lemma asset_row_upsert_eq key values rows :
  asset_row key (upsert key values rows) =
  Some (values ∪ default ∅ (asset_row key rows)).
Proof.
  unfold asset_row. induction rows as [|r rows IH]; simpl.
  - rewrite bool_decide_eq_true_2 by done. simpl.
    by rewrite (right_id_L ∅ (∪)).
  - destruct (decide (row_asset_key r = key)) as [Heq|Hne]; simpl.
    + rewrite !bool_decide_eq_true_2 by done. done.
    + rewrite !bool_decide_eq_false_2 by done. exact IH.
Qed.

Lemma asset_row_upsert_ne key key' values rows :
  key' <> key ->
  asset_row key' (upsert key values rows) = asset_row key' rows.
Proof.
  intros Hne. unfold asset_row. induction rows as [|r rows IH]; simpl.
  - by rewrite bool_decide_eq_false_2 by done.
  - destruct (decide (row_asset_key r = key)) as [Heq|Hne']; simpl.
    + rewrite !bool_decide_eq_false_2 by congruence. done.
    + destruct (bool_decide (row_asset_key r = key')); [done|exact IH].
Qed.



Section AssetIndexFacts.

Variable values : EventLogEntry -> bool -> gmap string SqlValue.
Variable super_has_secondary_index : string -> bool.
Variable cols : string.

(** [store_asset_event] on an event with an asset key: nothing is written
    and [ValueError] is raised when no column is computed for the event,
    the row of the key is written otherwise. *)
Lemma store_asset_event_keyed event key cache db :
  entry_asset_key event = Some key ->
  store_asset_event values super_has_secondary_index cols event cache db =
  let rc := has_secondary_index super_has_secondary_index cols cache in
  if decide (values event rc.1 = ∅) then (rc.2, db, Some ValueError)
  else
    (rc.2,
     {| event_logs := event_logs db;
        next_id := next_id db;
        asset_keys := upsert key (values event rc.1) (asset_keys db);
        notified := notified db |},
     None).
Proof.
  intros Hk. unfold store_asset_event. rewrite Hk.
  by destruct (has_secondary_index super_has_secondary_index cols cache).
Qed.





End AssetIndexFacts.


(** ** Moves of threads *)

Lemma moves_refl w : moves w w.
Proof. repeat split; try done. intros i t' H. exists t'. done. Qed.

Lemma moves_trans w1 w2 w3 : moves w1 w2 -> moves w2 w3 -> moves w1 w3.
Proof.
  intros (A1 & A2 & A3 & A4 & A5 & A6) (B1 & B2 & B3 & B4 & B5 & B6).
  repeat split; try congruence.
  intros i t3 H3. destruct (B6 i t3 H3) as (t2 & H2 & E2 & S2).
  destruct (A6 i t2 H2) as (t1 & H1 & E1 & S1).
  exists t1. split; [done|]. split; auto.
Qed.

Lemma moves_alive w w' tid : moves w w' -> alive w' tid -> alive w tid.
Proof.
  intros (_ & _ & _ & _ & _ & H) (t' & Ht' & Hs').
  destruct (H tid t' Ht') as (t & Ht & _ & Hs). exists t. auto.
Qed.

Lemma moves_with_alter f fx w tid :
  (forall t, (exit_flag t = true -> exit_flag (f t) = true) /\
             (status (f t) = Running -> status t = Running)) ->
  moves w (with_threads (alter f tid (threads w)) fx w).
Proof.
  intros Hf. repeat split; try done; simpl.
  - apply length_alter.
  - intros i t' Ht'. destruct (decide (tid = i)) as [->|Hne].
    + rewrite list_lookup_alter_eq in Ht'.
      destruct (threads w !! i) as [t|]; [|done].
      injection Ht' as <-. exists t. split; [done|]. apply Hf.
    + rewrite list_lookup_alter_ne in Ht' by done. exists t'. done.
Qed.

Section Lifecycle.

Variable behaviour : list (Callback * EventLogEntry) -> Callback -> EventLogEntry -> Outcome.
Context {tables : UnicodeTables}.

Lemma listener_turn_cases tid y w :
  listener_turn behaviour tid y w = w \/
  exists t st fx,
    threads w !! tid = Some t /\ status t = Running /\ started_flag t = true /\
    (fx, st) = watcher_thread_step behaviour (table y) (_handlers_dict w)
                 (exit_flag t) (notif y) (effects w) /\
    listener_turn behaviour tid y w =
    with_threads
      (<[tid := {| exit_flag := exit_flag t; started_flag := started_flag t;
                   status := match st with
                             | Continue => Running
                             | Break => Finished
                             | Die e => Died e
                             end |}]> (threads w))
      fx w.
Proof.
  unfold listener_turn.
  destruct (threads w !! tid) as [t|] eqn:Ht; [|by left].
  destruct (status t) eqn:Hs; try by left.
  destruct (started_flag t) eqn:Hst; [|by left].
  destruct (watcher_thread_step _ _ _ _ _ _) as [fx st] eqn:Hstep.
  right. exists t, st, fx. rewrite Hst. done.
Qed.

Lemma listener_turn_moves tid y w : moves w (listener_turn behaviour tid y w).
Proof.
  destruct (listener_turn_cases tid y w) as [->|(t & st & fx & Ht & Hs & _ & _ & ->)].
  - apply moves_refl.
  - repeat split; try done; simpl.
    + apply length_insert.
    + intros i t' Ht'. destruct (decide (tid = i)) as [->|Hne].
      * rewrite list_lookup_insert_eq in Ht' by (by apply lookup_lt_Some in Ht).
        injection Ht' as <-. exists t. done.
      * rewrite list_lookup_insert_ne in Ht' by done. exists t'. done.
Qed.

Lemma listener_listening_moves tid w : moves w (listener_listening tid w).
Proof. apply moves_with_alter. intros t. done. Qed.

Lemma set_exit_moves tid w : moves w (set_exit tid w).
Proof. apply moves_with_alter. intros t. done. Qed.

Lemma turns_moves tid pending w :
  moves w (foldl (fun w y => listener_turn behaviour tid y w) w pending).
Proof.
  revert w. induction pending as [|y pending IH]; intros w; simpl.
  - apply moves_refl.
  - eapply moves_trans; [apply listener_turn_moves|apply IH].
Qed.

Lemma join_moves tid pending w : moves w (join behaviour tid pending w).
Proof.
  unfold join. eapply moves_trans; [apply turns_moves|].
  apply moves_with_alter. intros t. split; [done|].
  simpl. by destruct (status t).
Qed.

(** After [join] the thread is not running. *)
Lemma join_stopped tid pending w : ~ alive (join behaviour tid pending w) tid.
Proof.
  unfold join, alive. simpl. intros (t' & Ht' & Hs').
  rewrite list_lookup_alter_eq in Ht'.
  destruct (_ !! tid) as [t|]; [|done].
  injection Ht' as <-. simpl in Hs'. by destruct (status t).
Qed.

Lemma set_exit_flag tid w t :
  threads w !! tid = Some t ->
  exists t', threads (set_exit tid w) !! tid = Some t' /\ exit_flag t' = true.
Proof.
  intros Ht. unfold set_exit. simpl. rewrite list_lookup_alter_eq, Ht. simpl.
  eexists. split; [done|]. done.
Qed.

Lemma moves_exit_flag w w' tid t :
  moves w w' -> threads w !! tid = Some t -> exit_flag t = true ->
  exists t', threads w' !! tid = Some t' /\ exit_flag t' = true.
Proof.
  intros (_ & _ & _ & _ & Hlen & H) Ht He.
  destruct (lookup_lt_is_Some_2 (threads w') tid) as [t' Ht'].
  { rewrite Hlen. by apply lookup_lt_Some in Ht. }
  exists t'. split; [done|].
  destruct (H tid t' Ht') as (t0 & Ht0 & Hex & _).
  rewrite Ht in Ht0. injection Ht0 as <-. auto.
Qed.

Lemma moves_consistent w w' : moves w w' -> consistent w -> consistent w'.
Proof.
  intros Hm (I1 & I2 & I3).
  pose proof Hm as (Hd & He & _ & Ht & Hl & _).
  split; [|split].
  - intros tid Ha. rewrite Ht. apply I1. by eapply moves_alive.
  - intros tid Htid. rewrite He, Hl. apply I2. by rewrite <- Ht.
  - intros run hs. rewrite Hd. apply I3.
Qed.

End Lifecycle.

(** ** The interface keeps watchers consistent *)

Lemma new_watcher_consistent : consistent new_watcher.
Proof.
  split; [|split].
  - intros tid (t & Ht & _). done.
  - intros tid [=].
  - intros run hs H. done.
Qed.

Lemma register_lookup run c cb w :
  _handlers_dict (register run c cb w) !! run =
  Some (default [] (_handlers_dict w !! run) ++ [mkCallbackAfterCursor (c + 1) cb]).
Proof. unfold register. simpl. apply lookup_insert_eq. Qed.

Lemma register_lookup_ne run run' c cb w :
  run' <> run ->
  _handlers_dict (register run c cb w) !! run' = _handlers_dict w !! run'.
Proof. intros H. unfold register. simpl. by apply lookup_insert_ne. Qed.

Lemma register_consistent run c cb w : consistent w -> consistent (register run c cb w).
Proof.
  intros (I1 & I2 & I3). split; [|split]; [exact I1|exact I2|].
  intros run' hs. destruct (decide (run' = run)) as [->|Hne].
  - rewrite register_lookup. intros [= <-]. by destruct (default [] _).
  - rewrite register_lookup_ne by done. apply I3.
Qed.

(** With a thread held, [watch_run] only registers. *)
Lemma watch_run_held run c cb timeout la w tid :
  _watcher_thread w = Some tid ->
  watch_run run c cb timeout la w = (register run c cb w, None, 0).
Proof. intros H. unfold watch_run. by rewrite H. Qed.

(** Without one, it starts a thread and waits for its started event. *)
Lemma watch_run_unheld run c cb timeout la w :
  _watcher_thread w = None ->
  let started := (Event_wait timeout la).2 in
  let w1 :=
    {| _handlers_dict := _handlers_dict w;
       _watcher_thread_exit := Some (length (threads w));
       _watcher_thread_started := Some (length (threads w));
       _watcher_thread := Some (length (threads w));
       threads := threads w ++
         [ {| exit_flag := false; started_flag := started; status := Running |} ];
       effects := effects w |} in
  watch_run run c cb timeout la w =
  (if started then register run c cb w1 else w1,
   if started then None else Some WatcherNeverStarted,
   (Event_wait timeout la).1).
Proof.
  intros H. unfold watch_run. rewrite H.
  by destruct (Event_wait timeout la) as [held []].
Qed.

Lemma watch_run_consistent run c cb timeout la w :
  consistent w -> consistent (watch_run run c cb timeout la w).1.1.
Proof.
  intros Hc. destruct (_watcher_thread w) as [tid|] eqn:Ht.
  - rewrite (watch_run_held _ _ _ _ _ _ _ Ht). simpl. by apply register_consistent.
  - rewrite (watch_run_unheld _ _ _ _ _ _ Ht). simpl.
    destruct Hc as (I1 & I2 & I3).
    match goal with |- consistent (if _ then register _ _ _ ?w1 else ?w1) =>
      assert (consistent w1) as Hc1 end.
    { split; [|split]; simpl.
      - intros tid (t & Hl & Hs). simpl in Hl.
        apply lookup_app_Some in Hl as [Hl|[Hge Hl]].
        + assert (alive w tid) as Ha by (by exists t).
          apply I1 in Ha. congruence.
        + apply list_lookup_singleton_Some in Hl as [Hz _].
          f_equal. lia.
      - intros tid [= <-]. split; [done|]. rewrite length_app. simpl. lia.
      - exact I3. }
    destruct (Event_wait timeout la).2; [by apply register_consistent|done].
Qed.

Lemma unwatch_run_lookup run cb w :
  _handlers_dict (unwatch_run run cb w) !! run =
  match _handlers_dict w !! run with
  | Some handlers =>
      match filter (fun h => py_eq (callback h) cb = false) handlers with
      | [] => None
      | kept => Some kept
      end
  | None => None
  end.
Proof.
  unfold unwatch_run. destruct (_handlers_dict w !! run) as [hs|] eqn:Hd; simpl.
  - destruct (filter _ hs) as [|h kept].
    + apply lookup_delete_eq.
    + apply lookup_insert_eq.
  - done.
Qed.

Lemma unwatch_run_lookup_ne run run' cb w :
  run' <> run ->
  _handlers_dict (unwatch_run run cb w) !! run' = _handlers_dict w !! run'.
Proof.
  intros Hne. unfold unwatch_run.
  destruct (_handlers_dict w !! run) as [hs|] eqn:Hd; simpl; [|done].
  destruct (filter _ hs) as [|h kept].
  - by apply lookup_delete_ne.
  - by apply lookup_insert_ne.
Qed.

Lemma unwatch_run_fields run cb w :
  _watcher_thread (unwatch_run run cb w) = _watcher_thread w /\
  _watcher_thread_exit (unwatch_run run cb w) = _watcher_thread_exit w /\
  threads (unwatch_run run cb w) = threads w /\
  effects (unwatch_run run cb w) = effects w.
Proof. unfold unwatch_run. by destruct (_handlers_dict w !! run). Qed.

Lemma unwatch_run_consistent run cb w : consistent w -> consistent (unwatch_run run cb w).
Proof.
  intros (I1 & I2 & I3).
  destruct (unwatch_run_fields run cb w) as (Ht & He & Hts & _).
  split; [|split].
  - intros tid (t & Hl & Hs). rewrite Ht. apply I1. exists t. by rewrite <- Hts.
  - intros tid. rewrite Ht, He, Hts. apply I2.
  - intros run' hs. destruct (decide (run' = run)) as [->|Hne].
    + rewrite unwatch_run_lookup.
      destruct (_handlers_dict w !! run); [|done].
      destruct (filter _ _) as [|h kept]; [done|]. by intros [= <-].
    + rewrite unwatch_run_lookup_ne by done. apply I3.
Qed.

Section Histories.

Variable behaviour : list (Callback * EventLogEntry) -> Callback -> EventLogEntry -> Outcome.
Context {tables : UnicodeTables}.

(** [close] on a consistent watcher. *)
Lemma close_consistent_eq pending w :
  consistent w ->
  close behaviour pending w =
  match _watcher_thread w with
  | Some tid =>
      let w' := join behaviour tid pending (set_exit tid w) in
      ({| _handlers_dict := _handlers_dict w';
          _watcher_thread_exit := None;
          _watcher_thread_started := _watcher_thread_started w';
          _watcher_thread := None;
          threads := threads w';
          effects := effects w' |}, Closed)
  | None => (w, Closed)
  end.
Proof.
  intros (_ & I2 & _). unfold close.
  destruct (_watcher_thread w) as [tid|]; [|done].
  destruct (I2 tid eq_refl) as [-> _]. done.
Qed.

Lemma close_stops pending w :
  consistent w -> forall tid, ~ alive (close behaviour pending w).1 tid.
Proof.
  intros Hc tid. rewrite close_consistent_eq by done.
  destruct Hc as (I1 & _ & _).
  destruct (_watcher_thread w) as [held|] eqn:Hh; simpl.
  - intros (t & Ht & Hs). simpl in Ht.
    assert (alive (join behaviour held pending (set_exit held w)) tid) as Ha
      by (by exists t).
    assert (tid = held) as ->.
    { eapply moves_alive in Ha;
        [|eapply moves_trans; [apply set_exit_moves|apply join_moves]].
      apply I1 in Ha. congruence. }
    by apply join_stopped in Ha.
  - intros Ha. apply I1 in Ha. congruence.
Qed.

Lemma close_consistent pending w :
  consistent w -> consistent (close behaviour pending w).1.
Proof.
  intros Hc. pose proof (close_stops pending w Hc) as Hdead.
  rewrite close_consistent_eq in * by done.
  destruct (_watcher_thread w) as [held|] eqn:Hh; simpl in *; [|done].
  split; [|split]; simpl.
  - intros tid Ha. by apply Hdead in Ha.
  - intros tid [=].
  - destruct (moves_trans _ _ _ (set_exit_moves held w)
                (join_moves behaviour held pending (set_exit held w)))
      as (Hd & _).
    intros run hs H. apply (proj2 (proj2 Hc) run hs).
    rewrite <- Hd. exact H.
Qed.

Lemma apply_op_consistent w o :
  consistent w -> consistent (apply_op behaviour w o).
Proof.
  intros Hc. destruct o; simpl.
  - by apply watch_run_consistent.
  - by apply unwatch_run_consistent.
  - by apply close_consistent.
  - eapply moves_consistent; [apply listener_listening_moves|done].
  - eapply moves_consistent; [apply listener_turn_moves|done].
Qed.

Lemma run_ops_consistent ops w :
  consistent w -> consistent (run_ops behaviour ops w).
Proof.
  revert w. induction ops as [|o ops IH]; intros w Hc; simpl; [done|].
  apply IH. by apply apply_op_consistent.
Qed.

Lemma history_consistent ops : consistent (run_ops behaviour ops new_watcher).
Proof. apply run_ops_consistent, new_watcher_consistent. Qed.

End Histories.

(** ** Starting and stopping the listener *)

Lemma Event_wait_signalled timeout la :
  signalled_within la timeout ->
  exists t, la = Some t /\ Event_wait timeout la = (Z.max 0 t, true).
Proof.
  intros (t & -> & Ht). exists t. split; [done|].
  unfold Event_wait. by rewrite (proj2 (Z.leb_le _ _) Ht).
Qed.

Lemma Event_wait_not_signalled timeout la :
  ~ signalled_within la timeout ->
  Event_wait timeout la = (Z.max 0 timeout, false).
Proof.
  intros Hn. unfold Event_wait. destruct la as [t|]; [|done].
  destruct (Z.leb_spec t (Z.max 0 timeout)); [|done].
  destruct Hn. by exists t.
Qed.

(** C5: a [watch_run] that finds no thread held starts one and holds its
    caller until the started event is set or [start_timeout] has passed,
    never longer; if the event is set in time the call registers and
    returns, otherwise it raises "Watcher thread never started" after
    [start_timeout] and registers nothing; with a [start_timeout] of 0 and
    a listener that never comes up it raises at once. *)
Theorem watch_start_handshake w run c cb timeout la :
  _watcher_thread w = None ->
  let r := watch_run run c cb timeout la w in
  0 <= r.2 <= Z.max 0 timeout /\
  length (threads r.1.1) = S (length (threads w)) /\
  (signalled_within la timeout ->
     r.1.2 = None /\
     (exists t, la = Some t /\ r.2 = Z.max 0 t) /\
     _handlers_dict r.1.1 !! run =
       Some (default [] (_handlers_dict w !! run) ++ [mkCallbackAfterCursor (c + 1) cb])) /\
  (~ signalled_within la timeout ->
     r.1.2 = Some WatcherNeverStarted /\
     r.2 = Z.max 0 timeout /\
     _handlers_dict r.1.1 = _handlers_dict w) /\
  (timeout = 0 -> la = None -> r.1.2 = Some WatcherNeverStarted /\ r.2 = 0).
Proof.
  intros Hnone r. subst r. rewrite (watch_run_unheld _ _ _ _ _ _ Hnone). simpl.
  split; [|split; [|split; [|split]]].
  - unfold Event_wait. destruct la as [t|]; simpl; [|lia].
    destruct (Z.leb_spec t (Z.max 0 timeout)); simpl; lia.
  - destruct (Event_wait timeout la).2; simpl; rewrite length_app; simpl; lia.
  - intros (t & Hla & Hw)%Event_wait_signalled. rewrite Hw. simpl.
    split; [done|]. split; [by exists t|]. apply lookup_insert_eq.
  - intros Hw%Event_wait_not_signalled. rewrite Hw. done.
  - intros -> ->. done.
Qed.

Lemma watch_start_handshake_witness :
  let r := watch_run "r1" 0 7%nat 0 None new_watcher in
  _watcher_thread new_watcher = None /\
  ~ signalled_within None 0 /\
  r.1.2 = Some WatcherNeverStarted /\ r.2 = 0 /\
  _handlers_dict r.1.1 = ∅.
Proof.
  intros r.
  assert (~ signalled_within None 0) as Hn by (intros (t & Ht & _); discriminate Ht).
  pose proof (watch_start_handshake new_watcher "r1" 0 7%nat 0 None eq_refl)
    as (_ & _ & _ & H & _).
  destruct (H Hn) as (H1 & H2 & H3).
  split; [reflexivity|]. split; [exact Hn|].
  split; [exact H1|]. split; [exact H2|exact H3].
Defined.

Section OneListener.

Variable behaviour : list (Callback * EventLogEntry) -> Callback -> EventLogEntry -> Outcome.
Context {tables : UnicodeTables}.


(** C7: in every history of a watcher, [close] raises nothing; it sets
    the exit event of the held thread and returns with that thread
    stopped and the handle cleared, no thread of the watcher being alive;
    a second [close] changes nothing, nor does a [close] on a watcher that
    never started a thread; a second [dispose] of the storage does
    nothing either. *)
Theorem close_stops_listener ops pending pending' :
  let w := run_ops behaviour ops new_watcher in
  let r := close behaviour pending w in
  r.2 = Closed /\
  _watcher_thread r.1 = None /\
  (forall tid, ~ alive r.1 tid) /\
  (forall tid, _watcher_thread w = Some tid ->
     exists t, threads r.1 !! tid = Some t /\ exit_flag t = true /\
               status t <> Running) /\
  close behaviour pending' r.1 = (r.1, Closed) /\
  close behaviour pending new_watcher = (new_watcher, Closed) /\
  (forall s, let d := dispose behaviour pending s in
             dispose behaviour pending' d.1 = (d.1, Closed)).
Proof.
  intros w r.
  pose proof (history_consistent behaviour ops) as Hc. fold w in Hc.
  pose proof (close_stops behaviour pending w Hc) as Hdead. fold r in Hdead.
  assert (r.2 = Closed /\ _watcher_thread r.1 = None) as [Hr Hnone].
  { subst r. rewrite close_consistent_eq by done.
    by destruct (_watcher_thread w) eqn:E. }
  split; [done|]. split; [done|]. split; [done|].
  split; [|split; [|split]].
  - intros tid Hheld.
    pose proof Hc as (_ & I2 & _). destruct (I2 tid Hheld) as [_ Hlt].
    destruct (lookup_lt_is_Some_2 _ _ Hlt) as [t Ht].
    destruct (set_exit_flag tid w t Ht) as (t1 & Ht1 & He1).
    destruct (moves_exit_flag _ _ tid t1
                (join_moves behaviour tid pending (set_exit tid w)) Ht1 He1)
      as (t2 & Ht2 & He2).
    assert (threads r.1 = threads (join behaviour tid pending (set_exit tid w)))
      as Hts.
    { subst r. rewrite close_consistent_eq by done. by rewrite Hheld. }
    exists t2. rewrite Hts. split; [done|]. split; [done|].
    intros Hs. apply (Hdead tid). exists t2. by rewrite Hts.
  - unfold close at 1. by rewrite Hnone.
  - done.
  - intros s d. subst d. unfold dispose.
    destruct (_disposed s) eqn:Hd.
    + simpl. by rewrite Hd.
    + destruct (_event_watcher s) as [w0|]; [|done].
      by destruct (close behaviour pending w0).
Qed.

End OneListener.

(** ** Taking a subscription away *)

Lemma py_eq_refl cb : py_eq cb cb = true.
Proof. destruct cb; simpl; by rewrite ?Nat.eqb_refl. Qed.

Lemma filter_all {A} (P : A -> Prop) `{forall x, Decision (P x)} (l : list A) :
  (forall x, x ∈ l -> P x) -> filter P l = l.
Proof.
  induction l as [|x l IH]; intros Hall; [done|].
  rewrite filter_cons_True by (apply Hall, list_elem_of_here).
  f_equal. apply IH. intros y Hy. by apply Hall, list_elem_of_further.
Qed.

Lemma unwatch_run_handlers run cb w :
  default [] (_handlers_dict (unwatch_run run cb w) !! run) =
  filter (fun h => py_eq (callback h) cb = false) (default [] (_handlers_dict w !! run)).
Proof.
  rewrite unwatch_run_lookup.
  destruct (_handlers_dict w !! run) as [hs|]; simpl; [|done].
  by destruct (filter _ hs).
Qed.

Lemma unwatch_run_not_subscribed run cb w :
  not_subscribed run cb (unwatch_run run cb w).
Proof.
  intros h. rewrite unwatch_run_handlers.
  by intros [Hne _]%list_elem_of_filter.
Qed.

Lemma unwatch_run_absent run cb w :
  consistent w -> not_subscribed run cb w -> unwatch_run run cb w = w.
Proof.
  intros (_ & _ & I3) Hns. unfold unwatch_run.
  destruct (_handlers_dict w !! run) as [hs|] eqn:Hd; [|done].
  rewrite filter_all.
  - destruct hs as [|h hs]; [by destruct (I3 run [] Hd)|].
    rewrite insert_id by done. by destruct w.
  - intros h Hh. apply Hns. by rewrite Hd.
Qed.

Section Unwatch.

Variable behaviour : list (Callback * EventLogEntry) -> Callback -> EventLogEntry -> Outcome.
Context {tables : UnicodeTables}.

(** A branch of the step that leaves the effects as they were. *)
Ltac no_call Hstep Hsame := injection Hstep as ? _; by intros ?%Hsame.

(** The calls of one turn go to subscribers of the run named in the
    payload. *)
Lemma listener_turn_calls tid y w c e :
  (c, e) ∈ drop (length (invoked (effects w)))
                (invoked (effects (listener_turn behaviour tid y w))) ->
  exists payload run index_str h,
    notif y = Some payload /\
    unpack_payload payload = Some (run, index_str) /\
    h ∈ default [] (_handlers_dict w !! run) /\ callback h = c.
Proof.
  destruct (listener_turn_cases behaviour tid y w)
    as [->|(t & st & fx & _ & _ & _ & Hstep & ->)].
  { rewrite drop_all. by intros ?%elem_of_nil. }
  simpl. unfold watcher_thread_step in Hstep.
  assert (fx = effects w -> (c, e) ∈ drop (length (invoked (effects w))) (invoked fx)
          -> False) as Hsame.
  { intros ->. rewrite drop_all. by intros ?%elem_of_nil. }
  destruct (notif y) as [payload|]; [|no_call Hstep Hsame].
  destruct (unpack_payload payload) as [[run index_str]|] eqn:Hu;
    [|no_call Hstep Hsame].
  destruct (bool_decide (is_Some (_handlers_dict w !! run)));
    [|no_call Hstep Hsame].
  destruct (Py.int index_str) as [index|]; [|no_call Hstep Hsame].
  destruct (fetch_event (table y) index) as [event|]; [|no_call Hstep Hsame].
  destruct (run_callbacks_calls behaviour run index event
              (default [] (_handlers_dict w !! run)) (effects w))
    as (calls & lines & Hcalls & _ & Hprefix).
  destruct (run_callbacks behaviour run index event _ (effects w)) as [fx' res].
  simpl in Hcalls.
  assert (fx = fx') as -> by (destruct res; by injection Hstep).
  rewrite Hcalls, drop_app_length. intros Hin.
  destruct Hprefix as [rest Hrest].
  assert ((c, e) ∈ calls_to index event (default [] (_handlers_dict w !! run)))
    as Hin' by (rewrite Hrest, elem_of_app; by left).
  apply calls_to_callback in Hin' as (_ & h & Hh & Hcb & _).
  by exists payload, run, index_str, h.
Qed.

Lemma apply_op_not_subscribed run cb w o :
  ~ rewatches run cb o -> not_subscribed run cb w ->
  not_subscribed run cb (apply_op behaviour w o).
Proof.
  intros Hre Hns. destruct o as [run' c cb' timeout la|run' cb'|pending|tid|tid y];
    simpl in *.
  - assert (not_subscribed run cb (register run' c cb' w)) as Hreg.
    { intros h. destruct (decide (run = run')) as [<-|Hne].
      - rewrite register_lookup. simpl.
        intros [Hin|Hin%list_elem_of_singleton]%elem_of_app; [by apply Hns|].
        subst h. simpl. destruct (py_eq cb' cb) eqn:Heq; [|done].
        by destruct Hre.
      - rewrite register_lookup_ne by done. apply Hns. }
    destruct (_watcher_thread w) as [tid|] eqn:Ht.
    + by rewrite (watch_run_held _ _ _ _ _ _ _ Ht).
    + unfold watch_run. rewrite Ht.
      destruct (Event_wait timeout la) as [held []]; simpl; [|exact Hns].
      intros h Hh. apply (Hreg h). exact Hh.
  - intros h. destruct (decide (run = run')) as [<-|Hne].
    + rewrite unwatch_run_handlers.
      intros [_ Hin]%list_elem_of_filter. by apply Hns.
    + rewrite unwatch_run_lookup_ne by done. apply Hns.
  - intros h Hh. apply (Hns h). revert Hh. unfold close.
    destruct (_watcher_thread w) as [tid|]; [|done].
    destruct (_watcher_thread_exit w) as [ev|]; [|done]. simpl.
    destruct (moves_trans _ _ _ (set_exit_moves ev w)
                (join_moves behaviour tid pending (set_exit ev w))) as (Hd & _).
    intros Hh. rewrite <- Hd. exact Hh.
  - exact Hns.
  - intros h Hh. apply (Hns h).
    destruct (listener_turn_moves behaviour tid y w) as (Hd & _).
    by rewrite <- Hd.
Qed.

Lemma run_ops_not_subscribed run cb later w :
  (forall o, o ∈ later -> ~ rewatches run cb o) ->
  not_subscribed run cb w ->
  not_subscribed run cb (run_ops behaviour later w).
Proof.
  revert w. induction later as [|o later IH]; intros w Hall Hns; simpl; [done|].
  apply IH.
  - intros o' Ho'. by apply Hall, list_elem_of_further.
  - apply apply_op_not_subscribed; [|done]. apply Hall, list_elem_of_here.
Qed.

(** C6, amended: in every history of a watcher, [unwatch_run] leaves for
    the run exactly the subscriptions whose callback is not equal ([==])
    to the given one, in their order; the lists of the other runs are as
    before; the entry of the run is gone when nothing is left; with the
    run not registered or no equal callback in its list the watcher is
    unchanged; nothing else of the watcher is touched and nothing is
    raised; and as long as no callback equal to it is subscribed to the
    run again, no turn on a notification for that run calls it or a
    callback equal to it. *)
Theorem unwatch_run_spec ops run cb :
  let w := run_ops behaviour ops new_watcher in
  let w' := unwatch_run run cb w in
  default [] (_handlers_dict w' !! run) =
    filter (fun h => py_eq (callback h) cb = false)
      (default [] (_handlers_dict w !! run)) /\
  (forall run', run' <> run -> _handlers_dict w' !! run' = _handlers_dict w !! run') /\
  (filter (fun h => py_eq (callback h) cb = false)
     (default [] (_handlers_dict w !! run)) = [] ->
   _handlers_dict w' !! run = None) /\
  (not_subscribed run cb w -> w' = w) /\
  (_watcher_thread w' = _watcher_thread w /\ threads w' = threads w /\
   effects w' = effects w) /\
  (forall later,
     (forall o, o ∈ later -> ~ rewatches run cb o) ->
     forall tid y payload index_str cb' event,
       notif y = Some payload ->
       unpack_payload payload = Some (run, index_str) ->
       py_eq cb' cb = true ->
       let w1 := run_ops behaviour later w' in
       (cb', event) ∉ drop (length (invoked (effects w1)))
                           (invoked (effects (listener_turn behaviour tid y w1)))).
Proof.
  intros w w'. pose proof (history_consistent behaviour ops) as Hc. fold w in Hc.
  split; [apply unwatch_run_handlers|].
  split; [intros run' Hne; by apply unwatch_run_lookup_ne|].
  split; [|split; [|split]].
  - intros Hnil. subst w'. rewrite unwatch_run_lookup.
    destruct (_handlers_dict w !! run) as [hs|]; [|done].
    simpl in Hnil. by rewrite Hnil.
  - by apply unwatch_run_absent.
  - destruct (unwatch_run_fields run cb w) as (? & _ & ? & ?). done.
  - intros later Hlater tid y payload index_str cb' event Hn Hu Heq w1 Hin.
    apply listener_turn_calls in Hin
      as (payload' & run' & index_str' & h & Hn' & Hu' & Hh & Hcb).
    rewrite Hn in Hn'. injection Hn' as <-.
    rewrite Hu in Hu'. injection Hu' as <- <-.
    assert (not_subscribed run cb w1) as Hns.
    { apply run_ops_not_subscribed; [done|]. apply unwatch_run_not_subscribed. }
    specialize (Hns h Hh). rewrite Hcb in Hns. congruence.
Qed.

End Unwatch.

(** ** A listener that has ended *)

Section DeadListener.

Variable behaviour : list (Callback * EventLogEntry) -> Callback -> EventLogEntry -> Outcome.
Context {tables : UnicodeTables}.

Lemma apply_op_keeps_handle w o :
  is_close o = false -> is_Some (_watcher_thread w) ->
  _watcher_thread (apply_op behaviour w o) = _watcher_thread w.
Proof.
  intros Hnc [tid Hheld]. destruct o; simpl in *; try done.
  - by rewrite (watch_run_held _ _ _ _ _ _ _ Hheld).
  - apply unwatch_run_fields.
  - apply (listener_turn_moves behaviour tid0 y w).
Qed.

Lemma close_threads_length pending w :
  length (threads (close behaviour pending w).1) = length (threads w).
Proof.
  unfold close. destruct (_watcher_thread w) as [tid|]; [|done].
  destruct (_watcher_thread_exit w) as [ev|]; [|done]. simpl.
  apply (moves_trans _ _ _ (set_exit_moves ev w)
           (join_moves behaviour tid pending (set_exit ev w))).
Qed.

(** With every thread ended and the handle still held, nothing but
    [close] brings a thread or an effect. *)
Lemma run_ops_dead later w tid :
  _watcher_thread w = Some tid ->
  (forall i, ~ alive w i) ->
  (forall o, o ∈ later -> is_close o = false) ->
  let w' := run_ops behaviour later w in
  effects w' = effects w /\
  length (threads w') = length (threads w) /\
  _watcher_thread w' = Some tid /\
  (forall i, ~ alive w' i).
Proof.
  revert w. induction later as [|o later IH]; intros w Hheld Hdead Hnc; simpl; [done|].
  assert (is_close o = false) as Ho by apply Hnc, list_elem_of_here.
  assert (effects (apply_op behaviour w o) = effects w /\
          length (threads (apply_op behaviour w o)) = length (threads w) /\
          (forall i, ~ alive (apply_op behaviour w o) i)) as (Hfx & Hlen & Hdead').
  { destruct o as [run c cb timeout la|run cb|pending|tid'|tid' y]; simpl in *;
      try done.
    - by rewrite (watch_run_held _ _ _ _ _ _ _ Hheld).
    - destruct (unwatch_run_fields run cb w) as (_ & _ & Hts & Hfx).
      split; [done|]. split; [by rewrite Hts|].
      intros i (t & Ht & Hs). apply (Hdead i). exists t. by rewrite <- Hts.
    - pose proof (listener_listening_moves tid' w) as Hm.
      split; [done|]. split; [apply Hm|].
      intros i Ha. apply (Hdead i). by eapply moves_alive.
    - by rewrite listener_turn_stopped. }
  destruct (IH (apply_op behaviour w o)) as (Hfx2 & Hlen2 & Hheld2 & Hdead2);
    [|done| |].
  - rewrite apply_op_keeps_handle; [done|done|by exists tid].
  - intros o' Ho'. by apply Hnc, list_elem_of_further.
  - split; [congruence|]. split; [congruence|]. done.
Qed.

Lemma run_ops_app ops1 ops2 w :
  run_ops behaviour (ops1 ++ ops2) w = run_ops behaviour ops2 (run_ops behaviour ops1 w).
Proof. apply foldl_app. Qed.

(** C10: [watch_run] starts a thread only when no thread is held, and
    of the operations on a watcher only [close] clears the handle.  So
    when, in some history, the held thread has ended without [close],
    then through all that follows short of a [close] the listener makes
    no call and logs nothing, no thread is started, and every
    [watch_run] registers and returns normally; a [close] followed by a
    [watch_run] whose listener comes up in time starts a new thread. *)
Theorem dead_listener_not_replaced :
  (forall w run c cb timeout la,
     length (threads (watch_run run c cb timeout la w).1.1) <> length (threads w) ->
     _watcher_thread w = None) /\
  (forall w o,
     is_close o = false -> is_Some (_watcher_thread w) ->
     _watcher_thread (apply_op behaviour w o) = _watcher_thread w) /\
  (forall ops tid,
     let w := run_ops behaviour ops new_watcher in
     _watcher_thread w = Some tid -> ~ alive w tid ->
     forall later,
       (forall o, o ∈ later -> is_close o = false) ->
       let w' := run_ops behaviour later w in
       effects w' = effects w /\
       length (threads w') = length (threads w) /\
       _watcher_thread w' = Some tid /\
       (forall i, ~ alive w' i) /\
       (forall run c cb timeout la,
          let r := watch_run run c cb timeout la w' in
          r.1.2 = None /\ threads r.1.1 = threads w' /\
          _handlers_dict r.1.1 !! run =
            Some (default [] (_handlers_dict w' !! run)
                  ++ [mkCallbackAfterCursor (c + 1) cb])) /\
       (forall pending run c cb timeout t,
          t <= Z.max 0 timeout ->
          let w2 := (watch_run run c cb timeout (Some t)
                       (close behaviour pending w').1).1.1 in
          _watcher_thread w2 = Some (length (threads w')) /\
          exists th, threads w2 !! length (threads w') = Some th /\
                     status th = Running /\ started_flag th = true)).
Proof.
  split; [|split].
  - intros w run c cb timeout la Hlen.
    destruct (_watcher_thread w) as [tid|] eqn:Hheld; [|done].
    by rewrite (watch_run_held _ _ _ _ _ _ _ Hheld) in Hlen.
  - apply apply_op_keeps_handle.
  - intros ops tid w Hheld Hended later Hnc w'.
    pose proof (history_consistent behaviour ops) as Hc. fold w in Hc.
    assert (forall i, ~ alive w i) as Hdead.
    { intros i Ha. pose proof Ha as Ha'. apply Hc in Ha'.
      rewrite Hheld in Ha'. injection Ha' as ->. done. }
    destruct (run_ops_dead later w tid Hheld Hdead Hnc)
      as (Hfx & Hlen & Hheld' & Hdead').
    fold w' in Hfx, Hlen, Hheld', Hdead'.
    split; [done|]. split; [done|]. split; [done|]. split; [done|]. split.
    + intros run c cb timeout la r. subst r.
      rewrite (watch_run_held _ _ _ _ _ _ _ Hheld'). simpl.
      split; [done|]. split; [done|]. apply lookup_insert_eq.
    + intros pending run c cb timeout t Ht w2.
      assert (consistent w') as Hc'.
      { subst w' w. rewrite <- run_ops_app. apply history_consistent. }
      assert (_watcher_thread (close behaviour pending w').1 = None) as Hnone.
      { rewrite close_consistent_eq by done. by rewrite Hheld'. }
      subst w2. rewrite (watch_run_unheld _ _ _ _ _ _ Hnone).
      assert (Event_wait timeout (Some t) = (Z.max 0 t, true)) as ->.
      { unfold Event_wait. by rewrite (proj2 (Z.leb_le _ _) Ht). }
      simpl. rewrite close_threads_length. split; [done|].
      exists {| exit_flag := false; started_flag := true; status := Running |}.
      split; [|done].
      apply lookup_app_Some. right. rewrite close_threads_length.
      split; [lia|]. by rewrite Nat.sub_diag.
Qed.

End DeadListener.

(** ** The lifecycle theorems at sample inputs *)


Lemma close_stops_listener_witness :
  let w := run_ops Samples.quiet Samples.two_watches new_watcher in
  let r := close Samples.quiet [] w in
  _watcher_thread w = Some 0%nat /\
  r.2 = Closed /\ _watcher_thread r.1 = None /\
  (exists t, threads r.1 !! 0%nat = Some t /\ exit_flag t = true /\ status t <> Running) /\
  close Samples.quiet [] r.1 = (r.1, Closed).
Proof.
  intros w r.
  pose proof (close_stops_listener Samples.quiet Samples.two_watches [] [])
    as (H1 & H2 & _ & H4 & H5 & _).
  split; [reflexivity|]. split; [exact H1|]. split; [exact H2|].
  split; [exact (H4 0%nat eq_refl)|exact H5].
Defined.

Lemma unwatch_run_spec_witness :
  let w := run_ops Samples.quiet Samples.two_watches new_watcher in
  let w' := unwatch_run "r1" 1%nat w in
  let y := Samples.notification (notify_payload "r1" 2) Samples.two_events in
  _handlers_dict w' !! "r1" = Some [mkCallbackAfterCursor 1 2%nat] /\
  unpack_payload (notify_payload "r1" 2) = Some ("r1", "2") /\
  invoked (effects (listener_turn Samples.quiet 0 y w'))
    = [(Function 2, Samples.step_event "r1" 20)] /\
  (Function 1, Samples.step_event "r1" 20)
    ∉ invoked (effects (listener_turn Samples.quiet 0 y w')).
Proof.
  intros w w' y.
  pose proof (unwatch_run_spec Samples.quiet Samples.two_watches "r1" 1%nat)
    as (_ & _ & _ & _ & _ & H).
  split; [reflexivity|]. split; [reflexivity|]. split; [reflexivity|].
  refine (H [] _ 0%nat y (notify_payload "r1" 2) "2" (Function 1)
            (Samples.step_event "r1" 20) eq_refl eq_refl eq_refl).
  intros o Ho. by apply elem_of_nil in Ho.
Defined.

(** C6, as stated, fails: the subscription made with one bound-method
    object is removed by [unwatch_run] called with another object for the
    same method of the same instance: the two are not identical, but they
    are equal, and equality is what the filter tests. *)
Lemma unwatch_run_spec_counterexample :
  let w := MoreSamples.method_watcher in
  let w' := unwatch_run "r1" MoreSamples.method_again w in
  MoreSamples.method_again <> MoreSamples.method_once /\
  py_eq MoreSamples.method_once MoreSamples.method_again = true /\
  _handlers_dict w !! "r1"
    = Some [mkCallbackAfterCursor 1 MoreSamples.method_once] /\
  _handlers_dict w' !! "r1" = None /\
  _handlers_dict w' = ∅.
Proof.
  repeat split; try (vm_compute; reflexivity).
  discriminate.
Qed.

Lemma dead_listener_not_replaced_witness :
  let w := run_ops Samples.quiet Samples.lost_listener new_watcher in
  let w' := run_ops Samples.quiet Samples.watch_again w in
  _watcher_thread w = Some 0%nat /\
  status <$> threads w !! 0%nat = Some (Died LookupFailure) /\
  _handlers_dict w' !! "r1" =
    Some [mkCallbackAfterCursor 1 7%nat; mkCallbackAfterCursor 1 8%nat] /\
  effects w' = effects w /\
  length (threads w') = length (threads w) /\
  _watcher_thread w' = Some 0%nat.
Proof.
  intros w w'.
  assert (~ alive w 0) as Hended.
  { intros (t & Ht & Hs). vm_compute in Ht. injection Ht as <-. discriminate Hs. }
  assert (forall o, o ∈ Samples.watch_again -> is_close o = false) as Hnc.
  { intros o Ho. unfold Samples.watch_again in Ho.
    apply elem_of_cons in Ho as [->|Ho]; [reflexivity|].
    apply elem_of_cons in Ho as [->|Ho]; [reflexivity|].
    by apply elem_of_nil in Ho. }
  pose proof (proj2 (proj2 (dead_listener_not_replaced Samples.quiet))
                Samples.lost_listener 0%nat eq_refl Hended Samples.watch_again Hnc)
    as (H1 & H2 & H3 & _).
  split; [reflexivity|]. split; [reflexivity|]. split; [reflexivity|].
  split; [exact H1|]. split; [exact H2|exact H3].
Defined.

(** * More of the code *)

(** ** Writing to the log *)

Lemma fetch_event_app table1 table2 index :
  fetch_event (table1 ++ table2) index =
  match fetch_event table1 index with
  | Some event => Some event
  | None => fetch_event table2 index
  end.
Proof.
  unfold fetch_event. induction table1 as [|r table1 IH]; [done|].
  simpl. destruct (row_id r =? index); [done|exact IH].
Qed.

Lemma fetch_event_below table bound index :
  Forall (fun r => row_id r < bound) table -> bound <= index ->
  fetch_event table index = None.
Proof.
  intros Hall Hle. unfold fetch_event.
  induction Hall as [|r table Hr _ IH]; [done|].
  simpl. destruct (Z.eqb_spec (row_id r) index); [lia|exact IH].
Qed.

Section LogFacts.

Variable values : EventLogEntry -> bool -> gmap string SqlValue.
Variable super_has_secondary_index : string -> bool.
Variable cols : string.

Lemma store_asset_event_log event cache db :
  let s := store_asset_event values super_has_secondary_index cols event cache db in
  event_logs s.1.2 = event_logs db /\ next_id s.1.2 = next_id db /\
  notified s.1.2 = notified db.
Proof.
  unfold store_asset_event. destruct (entry_asset_key event); [|done].
  destruct (has_secondary_index _ _ _). by destruct (decide _).
Qed.

(** [store_event] while the sequence has an id left. *)
Lemma store_event_within event cache db :
  next_id db <= MAX_ID ->
  store_event values super_has_secondary_index cols event cache db =
  let db1 :=
    {| event_logs := event_logs db ++
         [ {| row_id := next_id db; row_run_id := run_id event;
              row_event := event |} ];
       next_id := next_id db + 1;
       asset_keys := asset_keys db;
       notified := notified db ++ [notify_payload (run_id event) (next_id db)] |} in
  match dagster_event event with
  | Some d =>
      if (is_step_materialization d || is_asset_observation d
          || is_asset_materialization_planned d)
         && bool_decide (is_Some (asset_key d))
      then store_asset_event values super_has_secondary_index cols event cache db1
      else (cache, db1, None)
  | None => (cache, db1, None)
  end.
Proof.
  intros H. unfold store_event.
  by destruct (Z.ltb_spec MAX_ID (next_id db)); [lia|].
Qed.

(** [store_event] once the sequence is used up. *)
Lemma store_event_beyond event cache db :
  MAX_ID < next_id db ->
  store_event values super_has_secondary_index cols event cache db =
  (cache, db, Some DataError).
Proof.
  intros H. unfold store_event.
  by destruct (Z.ltb_spec MAX_ID (next_id db)); [|lia].
Qed.

(** What [store_event] does to the log, the sequence and the channel,
    whatever it does to the asset table. *)
Lemma store_event_log event cache db :
  next_id db <= MAX_ID ->
  let s := store_event values super_has_secondary_index cols event cache db in
  event_logs s.1.2 = event_logs db ++
    [ {| row_id := next_id db; row_run_id := run_id event; row_event := event |} ] /\
  next_id s.1.2 = next_id db + 1 /\
  notified s.1.2 = notified db ++ [notify_payload (run_id event) (next_id db)].
Proof.
  intros H. rewrite store_event_within by done. cbv zeta.
  destruct (dagster_event event) as [d|]; [|done].
  destruct (_ && _); [|done].
  match goal with |- context [store_asset_event _ _ _ _ _ ?db1] =>
    destruct (store_asset_event_log event cache db1) as (-> & -> & ->) end.
  done.
Qed.

Lemma store_event_ids_below event cache db :
  ids_below db ->
  ids_below (store_event values super_has_secondary_index cols event cache db).1.2.
Proof.
  intros H. destruct (Z.lt_ge_cases MAX_ID (next_id db)) as [Hlim|Hlim].
  { by rewrite store_event_beyond. }
  unfold ids_below in *.
  destruct (store_event_log event cache db Hlim) as (-> & -> & _).
  apply Forall_app. split.
  - eapply Forall_impl; [exact H|]. simpl. intros r Hr. lia.
  - apply Forall_singleton. simpl. lia.
Qed.

Lemma store_events_snoc events event s :
  store_events values super_has_secondary_index cols (events ++ [event]) s =
  let s' := store_events values super_has_secondary_index cols events s in
  (store_event values super_has_secondary_index cols event s'.1 s'.2).1.
Proof. unfold store_events. by rewrite foldl_app. Qed.

Lemma store_events_ids_below events :
  ids_below (store_events values super_has_secondary_index cols events
               (∅, empty_database)).2.
Proof.
  induction events as [|event events IH] using rev_ind.
  - apply Forall_nil_2.
  - rewrite store_events_snoc. by apply store_event_ids_below.
Qed.

Lemma store_events_next_id events :
  Z.of_nat (length events) <= MAX_ID ->
  next_id (store_events values super_has_secondary_index cols events
             (∅, empty_database)).2 = 1 + Z.of_nat (length events).
Proof.
  induction events as [|event events IH] using rev_ind; [done|].
  rewrite length_app. simpl. intros Hlen.
  rewrite store_events_snoc. cbv zeta.
  match goal with |- context [store_event _ _ _ _ ?c ?db] =>
    destruct (store_event_log event c db) as (_ & -> & _) end.
  - rewrite IH by lia. lia.
  - rewrite IH by lia. lia.
Qed.

(** X2: after any run of [store_event] calls on an empty database, no
    longer than the sequence of ids, the rows of the log carry the ids
    1, 2, ... in the order of the calls, with the events and run ids as
    given, and the channel has received one payload per event, in that
    order, made of the run id and the id of the row. *)
Theorem store_events_log events :
  Z.of_nat (length events) <= MAX_ID ->
  let db := (store_events values super_has_secondary_index cols events
               (∅, empty_database)).2 in
  let n := Z.of_nat (length events) in
  row_id <$> event_logs db = seqZ 1 n /\
  row_event <$> event_logs db = events /\
  row_run_id <$> event_logs db = run_id <$> events /\
  next_id db = 1 + n /\
  notified db =
    (fun ie => notify_payload (run_id ie.2) ie.1) <$> zip (seqZ 1 n) events.
Proof.
  induction events as [|event events IH] using rev_ind; [done|].
  rewrite length_app. simpl. intros Hlen.
  rewrite store_events_snoc. cbv zeta in *.
  destruct IH as (Hids & Hevs & Hruns & Hnext & Hnot); [lia|].
  set (s := store_events values super_has_secondary_index cols events
              (∅, empty_database)) in *.
  destruct (store_event_log event s.1 s.2) as (-> & -> & ->); [lia|].
  rewrite Nat.add_1_r, seqZ_S, !fmap_app.
  rewrite Hids, Hevs, Hruns, Hnext, Hnot. simpl.
  split; [done|]. split; [done|]. split; [done|]. split; [lia|].
  rewrite zip_with_app by (by rewrite length_seqZ, Nat2Z.id).
  by rewrite fmap_app.
Qed.

(** X1: in a database filled by [store_event] calls, with an id of the
    sequence left, one more call gives the event the next id of the
    sequence, which no row had; the point fetch by that id then returns
    the event just stored, and every other id fetches what it fetched
    before.  Once the sequence is used up, in any database, the call
    raises [DataError] and leaves the tables, the channel and the cache as
    they were. *)
Theorem store_event_fetch events event :
  Z.of_nat (length events) < MAX_ID ->
  let s := store_events values super_has_secondary_index cols events
             (∅, empty_database) in
  let s' := store_event values super_has_secondary_index cols event s.1 s.2 in
  let id := next_id s.2 in
  id = 1 + Z.of_nat (length events) /\
  fetch_event (event_logs s.2) id = None /\
  fetch_event (event_logs s'.1.2) id = Some event /\
  (forall index, index <> id ->
     fetch_event (event_logs s'.1.2) index = fetch_event (event_logs s.2) index) /\
  last (notified s'.1.2) = Some (notify_payload (run_id event) id) /\
  (forall cache db, MAX_ID < next_id db ->
     store_event values super_has_secondary_index cols event cache db =
     (cache, db, Some DataError)).
Proof.
  intros Hlen s s' id.
  pose proof (store_events_ids_below events) as Hbelow. fold s in Hbelow.
  assert (id = 1 + Z.of_nat (length events)) as Hid.
  { subst id s. apply store_events_next_id. lia. }
  assert (fetch_event (event_logs s.2) id = None) as Hnone.
  { eapply fetch_event_below; [exact Hbelow|]. subst id. lia. }
  destruct (store_event_log event s.1 s.2) as (Hlog & _ & Hnot).
  { fold id. lia. }
  fold s' in Hlog, Hnot.
  split; [done|]. split; [done|]. rewrite Hlog, Hnot. split; [|split; [|split]].
  - rewrite fetch_event_app, Hnone. unfold fetch_event. simpl.
    by rewrite Z.eqb_refl.
  - intros index Hne. rewrite fetch_event_app.
    destruct (fetch_event (event_logs s.2) index); [done|].
    unfold fetch_event. simpl. fold id.
    by destruct (Z.eqb_spec id index).
  - apply last_snoc.
  - intros cache db. apply store_event_beyond.
Qed.

(** X3: [store_event], with an id of the sequence left, touches the asset
    table only for a dagster event of one of the three asset kinds that
    carries an asset key; for every other event the asset table and the
    cache of index answers are as before and nothing is raised.  For such
    an event with no column to write the call raises [ValueError] and the
    asset table is as before; with columns to write it writes the row of
    the key and no other.  The row of the log is written in every case. *)
Theorem store_event_asset_gate event cache db :
  next_id db <= MAX_ID ->
  let s := store_event values super_has_secondary_index cols event cache db in
  (dagster_event event = None ->
     asset_keys s.1.2 = asset_keys db /\ s.1.1 = cache /\ s.2 = None) /\
  (forall d, dagster_event event = Some d -> event_type d = OTHER_EVENT ->
     asset_keys s.1.2 = asset_keys db /\ s.1.1 = cache /\ s.2 = None) /\
  (forall d, dagster_event event = Some d -> asset_key d = None ->
     asset_keys s.1.2 = asset_keys db /\ s.1.1 = cache /\ s.2 = None) /\
  (forall d key, dagster_event event = Some d -> event_type d <> OTHER_EVENT ->
     asset_key d = Some key ->
     let ready := (has_secondary_index super_has_secondary_index cols cache).1 in
     if decide (values event ready = ∅)
     then s.2 = Some ValueError /\ asset_keys s.1.2 = asset_keys db
     else
       s.2 = None /\
       asset_row key (asset_keys s.1.2) =
         Some (values event ready ∪ default ∅ (asset_row key (asset_keys db))) /\
       forall key', key' <> key ->
         asset_row key' (asset_keys s.1.2) = asset_row key' (asset_keys db)) /\
  length (event_logs s.1.2) = S (length (event_logs db)).
Proof.
  intros Hlim s. split; [|split; [|split; [|split]]].
  - intros Hd. subst s. rewrite store_event_within by done. by rewrite Hd.
  - intros d Hd Hty. subst s. rewrite store_event_within by done. rewrite Hd.
    unfold is_step_materialization, is_asset_observation,
      is_asset_materialization_planned. by rewrite Hty.
  - intros d Hd Hkey. subst s. rewrite store_event_within by done.
    rewrite Hd, Hkey.
    rewrite bool_decide_eq_false_2 by (by intros [? ?]).
    by rewrite andb_false_r.
  - intros d key Hd Hty Hkey ready. subst s.
    rewrite store_event_within by done. rewrite Hd, Hkey.
    rewrite bool_decide_eq_true_2 by eauto.
    assert (is_step_materialization d || is_asset_observation d
            || is_asset_materialization_planned d = true) as ->.
    { unfold is_step_materialization, is_asset_observation,
        is_asset_materialization_planned. by destruct (event_type d). }
    simpl. rewrite (store_asset_event_keyed _ _ _ _ key)
      by (unfold entry_asset_key; by rewrite Hd).
    cbv zeta. fold ready.
    destruct (decide (values event ready = ∅)) as [Hv|Hv]; [done|].
    simpl. split; [done|]. split; [apply asset_row_upsert_eq|].
    intros key' Hne. by apply asset_row_upsert_ne.
  - destruct (store_event_log event cache db Hlim) as (Hlog & _). fold s in Hlog.
    rewrite Hlog, length_app. simpl. lia.
Qed.

End LogFacts.

(** ** The cache of index answers *)

Lemma has_secondary_index_cached sup name cache :
  (has_secondary_index sup name cache).2 !! name =
  Some (has_secondary_index sup name cache).1.
Proof.
  unfold has_secondary_index. destruct (cache !! name) eqn:Hc; simpl; [done|].
  apply lookup_insert_eq.
Qed.

(** X4: once [has_secondary_index] has answered for a name, it gives the
    same answer again and leaves the cache alone, whatever the database
    would say by then; so two [store_asset_event] calls in a row see one
    and the same answer, the one of the first call: the second call does
    what it would do had the database not changed its mind, raises
    [ValueError] exactly when no column is computed for its event under
    that answer, and when both calls have columns to write the row holds
    those of the second over those of the first. *)
Theorem has_secondary_index_sticky
    (values : EventLogEntry -> bool -> gmap string SqlValue)
    (sup1 sup2 : string -> bool) (name : string) (cache : gmap string bool) :
  let r := has_secondary_index sup1 name cache in
  has_secondary_index sup2 name r.2 = r /\
  (forall e1 e2 key db,
     entry_asset_key e1 = Some key -> entry_asset_key e2 = Some key ->
     let s1 := store_asset_event values sup1 name e1 cache db in
     let s2 := store_asset_event values sup2 name e2 s1.1.1 s1.1.2 in
     s1.1.1 = r.2 /\ s2.1.1 = r.2 /\
     s2 = store_asset_event values sup1 name e2 s1.1.1 s1.1.2 /\
     s2.2 = (if decide (values e2 r.1 = ∅) then Some ValueError else None) /\
     (values e1 r.1 <> ∅ -> values e2 r.1 <> ∅ ->
      asset_row key (asset_keys s2.1.2) =
        Some (values e2 r.1 ∪
              (values e1 r.1 ∪ default ∅ (asset_row key (asset_keys db)))))).
Proof.
  intros r.
  assert (forall sup, has_secondary_index sup name r.2 = r) as Hagain.
  { intros sup. unfold has_secondary_index at 1. subst r.
    rewrite has_secondary_index_cached. by destruct (has_secondary_index _ _ _). }
  split; [apply Hagain|].
  intros e1 e2 key db H1 H2 s1 s2.
  assert (s1.1.1 = r.2) as Hc1.
  { subst s1. rewrite (store_asset_event_keyed values sup1 name e1 key) by done.
    cbv zeta. fold r. by destruct (decide _). }
  assert (forall sup,
            store_asset_event values sup name e2 s1.1.1 s1.1.2 =
            if decide (values e2 r.1 = ∅) then (r.2, s1.1.2, Some ValueError)
            else (r.2,
                  {| event_logs := event_logs s1.1.2; next_id := next_id s1.1.2;
                     asset_keys := upsert key (values e2 r.1) (asset_keys s1.1.2);
                     notified := notified s1.1.2 |}, None)) as Hs2.
  { intros sup.
    rewrite (store_asset_event_keyed values sup name e2 key) by done.
    cbv zeta. by rewrite Hc1, Hagain. }
  split; [done|]. subst s2. rewrite !Hs2.
  split; [by destruct (decide _)|]. split; [done|].
  split; [by destruct (decide _)|].
  intros Hv1 Hv2. destruct (decide (values e2 r.1 = ∅)); [done|]. simpl.
  rewrite asset_row_upsert_eq. subst s1.
  rewrite (store_asset_event_keyed values sup1 name e1 key) by done.
  cbv zeta. fold r. destruct (decide (values e1 r.1 = ∅)); [done|]. simpl.
  by rewrite asset_row_upsert_eq.
Qed.

(** X5: [enable_secondary_index] drops the cached answer for its name and
    no other, and leaves a cache without that name as it is; the next
    [has_secondary_index] for the name takes the answer of the database,
    also when an older answer had been cached. *)
Theorem enable_secondary_index_asks_again
    (sup1 sup2 : string -> bool) (name : string) (cache : gmap string bool) :
  enable_secondary_index name cache !! name = None /\
  (forall name', name' <> name ->
     enable_secondary_index name cache !! name' = cache !! name') /\
  (cache !! name = None -> enable_secondary_index name cache = cache) /\
  (has_secondary_index sup2 name
     (enable_secondary_index name (has_secondary_index sup1 name cache).2)).1
    = sup2 name.
Proof.
  assert (forall c : gmap string bool, enable_secondary_index name c !! name = None)
    as Hgone.
  { intros c. unfold enable_secondary_index.
    destruct (c !! name) eqn:Hc; [apply lookup_delete_eq|done]. }
  split; [apply Hgone|]. split; [|split].
  - intros name' Hne. unfold enable_secondary_index.
    destruct (cache !! name); [by apply lookup_delete_ne|done].
  - intros Hc. unfold enable_secondary_index. by rewrite Hc.
  - unfold has_secondary_index at 1. by rewrite Hgone.
Qed.

(** ** More on the turns of the listener *)

Lemma thread_unchanged w tid t :
  threads w !! tid = Some t -> status t = Running ->
  with_threads
    (<[tid := {| exit_flag := exit_flag t; started_flag := started_flag t;
                 status := Running |}]> (threads w))
    (effects w) w = w.
Proof.
  intros Ht Hs. unfold with_threads. rewrite <- Hs.
  rewrite list_insert_id by (by destruct t). by destruct w.
Qed.

Lemma insert_alter_thread (f : Thread -> Thread) tid t x (ts : list Thread) :
  ts !! tid = Some t ->
  <[tid := f x]> (alter f tid ts) = alter f tid (<[tid := x]> ts).
Proof.
  intros Ht. apply list_eq. intros j.
  pose proof (lookup_lt_Some _ _ _ Ht) as Hlt.
  destruct (decide (tid = j)) as [<-|Hne].
  - rewrite list_lookup_insert_eq by (by rewrite length_alter).
    rewrite list_lookup_alter_eq, list_lookup_insert_eq by done. done.
  - rewrite list_lookup_insert_ne by done.
    rewrite !list_lookup_alter_ne by done.
    by rewrite list_lookup_insert_ne.
Qed.

Section MoreTurns.

Variable behaviour : list (Callback * EventLogEntry) -> Callback -> EventLogEntry -> Outcome.
Context {tables : UnicodeTables}.

(** A turn of a thread that is running and listening. *)
Lemma listener_turn_running tid t y w :
  threads w !! tid = Some t -> status t = Running -> started_flag t = true ->
  listener_turn behaviour tid y w =
  let r := watcher_thread_step behaviour (table y) (_handlers_dict w)
             (exit_flag t) (notif y) (effects w) in
  with_threads
    (<[tid := {| exit_flag := exit_flag t; started_flag := started_flag t;
                 status := match r.2 with
                           | Continue => Running
                           | Break => Finished
                           | Die e => Died e
                           end |}]> (threads w))
    r.1 w.
Proof.
  intros Ht Hs Hst. unfold listener_turn. rewrite Ht, Hs, Hst.
  by destruct (watcher_thread_step _ _ _ _ _ _).
Qed.

(** A turn that ends the thread with an error and no effect. *)
Lemma listener_turn_dies tid t y w e :
  threads w !! tid = Some t -> status t = Running -> started_flag t = true ->
  watcher_thread_step behaviour (table y) (_handlers_dict w) (exit_flag t)
    (notif y) (effects w) = (effects w, Die e) ->
  let w' := listener_turn behaviour tid y w in
  status <$> threads w' !! tid = Some (Died e) /\
  effects w' = effects w /\
  _handlers_dict w' = _handlers_dict w /\
  forall y', listener_turn behaviour tid y' w' = w'.
Proof.
  intros Ht Hs Hst Hstep w'.
  assert (status <$> threads w' !! tid = Some (Died e)) as Hdead.
  { subst w'. rewrite (listener_turn_running tid t y w Ht Hs Hst), Hstep. simpl.
    rewrite list_lookup_insert_eq by (by apply lookup_lt_Some in Ht). done. }
  split; [done|]. subst w'.
  rewrite (listener_turn_running tid t y w Ht Hs Hst), Hstep in *. simpl in *.
  split; [done|]. split; [done|].
  intros y'. apply listener_turn_stopped.
  intros (t' & Ht' & Hs'). simpl in Ht'. rewrite Ht' in Hdead.
  simpl in Hdead. congruence.
Qed.

(** X6: a notification for a run nobody watches is dropped at once: the
    watcher is as before, the thread goes on, and neither the id in the
    payload is parsed nor the table read, so a payload with a malformed id
    or an id that is in no row does no harm for such a run. *)
Theorem unwatched_notification_dropped tid y w payload run index_str :
  notif y = Some payload ->
  unpack_payload payload = Some (run, index_str) ->
  _handlers_dict w !! run = None ->
  listener_turn behaviour tid y w = w.
Proof.
  intros Hn Hu Hd.
  destruct (threads w !! tid) as [t|] eqn:Ht;
    [|apply listener_turn_stopped; by intros (t & Ht' & _); congruence].
  destruct (status t) eqn:Hs;
    try (apply listener_turn_stopped; intros (t' & Ht' & Hs'); congruence).
  destruct (started_flag t) eqn:Hst;
    [|unfold listener_turn; by rewrite Ht, Hs, Hst].
  rewrite (listener_turn_running tid t y w Ht Hs Hst).
  unfold watcher_thread_step. rewrite Hn, Hu, Hd. simpl.
  rewrite Hst. rewrite <- Hst at 1. by apply thread_unchanged.
Qed.

(** X7: the payload [store_event] sends for an event whose run id
    contains the delimiter cannot be unpacked: a running listener that
    takes it ends with a [ValueError], whether or not anybody watches that
    run; nobody is called, nothing is logged, and the thread takes no
    further notification.  The payload is the last one sent, unless the
    sequence had no id left for the row, when nothing was sent. *)
Theorem delimiter_in_run_id_ends_listener
    (values : EventLogEntry -> bool -> gmap string SqlValue)
    (sup : string -> bool) (cols : string) event cache db tid t w :
  threads w !! tid = Some t -> status t = Running -> started_flag t = true ->
  Py.lacks delim (run_id event) = false ->
  let db' := (store_event values sup cols event cache db).1.2 in
  let payload := notify_payload (run_id event) (next_id db) in
  let w' := listener_turn behaviour tid
              {| notif := Some payload; table := event_logs db' |} w in
  last (notified db') =
    (if MAX_ID <? next_id db then last (notified db) else Some payload) /\
  status <$> threads w' !! tid = Some (Died ValueError) /\
  effects w' = effects w /\
  _handlers_dict w' = _handlers_dict w /\
  forall y', listener_turn behaviour tid y' w' = w'.
Proof.
  intros Ht Hs Hst Hrun db' payload w'.
  split.
  { subst db'. destruct (Z.ltb_spec MAX_ID (next_id db)) as [Hlim|Hlim].
    - by rewrite store_event_beyond.
    - destruct (store_event_log values sup cols event cache db Hlim)
        as (_ & _ & ->). apply last_snoc. }
  apply (listener_turn_dies tid t _ w ValueError Ht Hs Hst).
  unfold watcher_thread_step. simpl. subst payload.
  by rewrite (unpack_notify_payload_delim _ _ Hrun).
Qed.

(** X8: for a run that is watched, a payload whose second part is not a
    number ends the listener with a [ValueError] before the table is read:
    nobody is called, nothing is logged, no further notification is
    taken. *)
Theorem malformed_index_ends_listener tid t y w payload run index_str :
  threads w !! tid = Some t -> status t = Running -> started_flag t = true ->
  notif y = Some payload ->
  unpack_payload payload = Some (run, index_str) ->
  is_Some (_handlers_dict w !! run) ->
  Py.int index_str = None ->
  let w' := listener_turn behaviour tid y w in
  status <$> threads w' !! tid = Some (Died ValueError) /\
  effects w' = effects w /\
  _handlers_dict w' = _handlers_dict w /\
  forall y', listener_turn behaviour tid y' w' = w'.
Proof.
  intros Ht Hs Hst Hn Hu [hs Hd] Hi.
  apply (listener_turn_dies tid t y w ValueError Ht Hs Hst).
  unfold watcher_thread_step. rewrite Hn, Hu, Hd. simpl. by rewrite Hi.
Qed.

(** X9: the exit event is looked at on timeouts only.  A timeout with
    the event unset changes nothing; a timeout with the event set ends the
    thread normally, without any effect; and on a notification it makes no
    difference whether the exit event was set before the turn or after
    it. *)
Theorem exit_checked_on_timeout tid t w :
  threads w !! tid = Some t -> status t = Running -> started_flag t = true ->
  (forall tbl, exit_flag t = false ->
     listener_turn behaviour tid {| notif := None; table := tbl |} w = w) /\
  (forall tbl, exit_flag t = true ->
     let w' := listener_turn behaviour tid {| notif := None; table := tbl |} w in
     status <$> threads w' !! tid = Some Finished /\
     effects w' = effects w /\ _handlers_dict w' = _handlers_dict w) /\
  (forall tbl,
     let w' := listener_turn behaviour tid {| notif := None; table := tbl |}
                 (set_exit tid w) in
     status <$> threads w' !! tid = Some Finished /\ effects w' = effects w) /\
  (forall payload tbl,
     listener_turn behaviour tid {| notif := Some payload; table := tbl |}
       (set_exit tid w) =
     set_exit tid
       (listener_turn behaviour tid {| notif := Some payload; table := tbl |} w)).
Proof.
  intros Ht Hs Hst.
  assert (threads (set_exit tid w) !! tid =
          Some {| exit_flag := true; started_flag := started_flag t;
                  status := status t |}) as Ht'.
  { unfold set_exit. simpl. by rewrite list_lookup_alter_eq, Ht. }
  split; [|split; [|split]].
  - intros tbl He. rewrite (listener_turn_running tid t _ w Ht Hs Hst).
    simpl. rewrite He. rewrite <- He at 1. by apply thread_unchanged.
  - intros tbl He w'. subst w'.
    rewrite (listener_turn_running tid t _ w Ht Hs Hst). simpl. rewrite He. simpl.
    rewrite list_lookup_insert_eq by (by apply lookup_lt_Some in Ht). done.
  - intros tbl w'. subst w'.
    rewrite (listener_turn_running tid _ _ (set_exit tid w) Ht' Hs Hst). simpl.
    rewrite list_lookup_insert_eq; [done|].
    rewrite length_alter. by apply lookup_lt_Some in Ht.
  - intros payload tbl.
    rewrite (listener_turn_running tid _ _ (set_exit tid w) Ht' Hs Hst).
    rewrite (listener_turn_running tid t _ w Ht Hs Hst). simpl.
    destruct (unpack_payload payload) as [[run index_str]|]; simpl.
    + destruct (bool_decide _); simpl.
      * destruct (Py.int index_str) as [index|]; simpl.
        -- destruct (fetch_event tbl index) as [event|]; simpl.
           ++ destruct (run_callbacks _ _ _ _ _ _) as [fx [e|]]; simpl;
                unfold set_exit, with_threads; simpl; f_equal;
                by rewrite <- (insert_alter_thread _ tid t) by done.
           ++ unfold set_exit, with_threads; simpl; f_equal.
              by rewrite <- (insert_alter_thread _ tid t) by done.
        -- unfold set_exit, with_threads; simpl; f_equal.
           by rewrite <- (insert_alter_thread _ tid t) by done.
      * unfold set_exit, with_threads; simpl; f_equal.
        by rewrite <- (insert_alter_thread _ tid t) by done.
    + unfold set_exit, with_threads; simpl; f_equal.
      by rewrite <- (insert_alter_thread _ tid t) by done.
Qed.

End MoreTurns.

(** ** More on dispatch *)

Section MoreDispatch.

Variable behaviour : list (Callback * EventLogEntry) -> Callback -> EventLogEntry -> Outcome.
Context {tables : UnicodeTables}.

(** The dispatch of a list in two parts. *)
Lemma run_callbacks_app run index event pre rest fx :
  run_callbacks behaviour run index event (pre ++ rest) fx =
  match run_callbacks behaviour run index event pre fx with
  | (fx1, None) => run_callbacks behaviour run index event rest fx1
  | stopped => stopped
  end.
Proof.
  revert fx. induction pre as [|h pre IH]; intros fx; simpl; [done|].
  destruct (start_cursor h <? index); [|apply IH].
  destruct (behaviour (invoked fx) (callback h) event) as [|[name|name]];
    [apply IH|apply IH|done].
Qed.

(** The dispatch runs through a list none of whose callbacks raises past
    [except Exception] on the event. *)
Lemma run_callbacks_complete_on run index event handlers fx :
  (forall history h name, h ∈ handlers ->
     behaviour history (callback h) event <> Raises (BaseExceptionOnly name)) ->
  run_callbacks behaviour run index event handlers fx =
  ({| invoked := invoked fx ++ calls_to index event handlers;
      logged := logged fx ++
                lines_for behaviour run (invoked fx) (calls_to index event handlers) |},
   None).
Proof.
  revert fx. induction handlers as [|h rest IH]; intros fx Hexc; simpl.
  - unfold calls_to. simpl. rewrite !app_nil_r. by destruct fx.
  - assert (forall history h' name, h' ∈ rest ->
       behaviour history (callback h') event <> Raises (BaseExceptionOnly name))
      as Hrest by (intros ? ? ? ?; by apply Hexc, list_elem_of_further).
    unfold calls_to. simpl. destruct (start_cursor h <? index) eqn:Hlt.
    + simpl. fold (calls_to index event rest).
      destruct (behaviour (invoked fx) (callback h) event) as [|[name|name]] eqn:Hb.
      * rewrite IH by done. simpl. by rewrite <- !app_assoc.
      * rewrite IH by done. simpl. by rewrite <- !app_assoc.
      * destruct (Hexc _ h name (list_elem_of_here _ _) Hb).
    + by apply IH.
Qed.

(** X10: a callback that leaves with something that is not an
    [Exception] ends the dispatch and the listener: the subscribers before
    it in the list have been called (and their raises logged), it has been
    called, nothing is logged for it, the subscribers after it are not
    called for this event, and the thread has died of that raise. *)
Theorem base_exception_ends_listener tid t y w payload run index pre h post event name :
  threads w !! tid = Some t -> status t = Running -> started_flag t = true ->
  notif y = Some payload -> decode_payload payload = Some (run, index) ->
  _handlers_dict w !! run = Some (pre ++ h :: post) ->
  fetch_event (table y) index = Some event ->
  (forall history h' name', h' ∈ pre ->
     behaviour history (callback h') event <> Raises (BaseExceptionOnly name')) ->
  start_cursor h < index ->
  behaviour (invoked (effects w) ++ calls_to index event pre) (callback h) event
    = Raises (BaseExceptionOnly name) ->
  let w' := listener_turn behaviour tid y w in
  invoked (effects w') =
    invoked (effects w) ++ calls_to index event pre ++ [(callback h, event)] /\
  logged (effects w') =
    logged (effects w) ++
    lines_for behaviour run (invoked (effects w)) (calls_to index event pre) /\
  status <$> threads w' !! tid = Some (Died (Uncaught name)) /\
  forall y', listener_turn behaviour tid y' w' = w'.
Proof.
  intros Ht Hs Hst Hn Hdec Hd Hf Hpre Hlt Hb w'.
  assert (run_callbacks behaviour run index event (pre ++ h :: post) (effects w) =
          ({| invoked := invoked (effects w) ++ calls_to index event pre
                         ++ [(callback h, event)];
              logged := logged (effects w) ++
                lines_for behaviour run (invoked (effects w))
                  (calls_to index event pre) |},
           Some (Uncaught name))) as Hrun.
  { rewrite run_callbacks_app, run_callbacks_complete_on by done.
    simpl. rewrite (proj2 (Z.ltb_lt _ _) Hlt), Hb. simpl.
    by rewrite <- app_assoc. }
  assert (w' = with_threads
            (<[tid := {| exit_flag := exit_flag t; started_flag := started_flag t;
                         status := Died (Uncaught name) |}]> (threads w))
            {| invoked := invoked (effects w) ++ calls_to index event pre
                          ++ [(callback h, event)];
               logged := logged (effects w) ++
                 lines_for behaviour run (invoked (effects w))
                   (calls_to index event pre) |} w) as ->.
  { subst w'.
    rewrite (listener_turn_dispatch behaviour tid t y w run index
               (pre ++ h :: post) event) by eauto.
    by rewrite Hrun. }
  simpl. split; [done|]. split; [done|].
  assert (<[tid := {| exit_flag := exit_flag t; started_flag := started_flag t;
                      status := Died (Uncaught name) |}]> (threads w) !! tid
          = Some {| exit_flag := exit_flag t; started_flag := started_flag t;
                    status := Died (Uncaught name) |}) as Hl.
  { apply list_lookup_insert_eq. by apply lookup_lt_Some in Ht. }
  split; [by rewrite Hl|].
  intros y'. apply listener_turn_stopped.
  intros (t' & Ht' & Hs'). simpl in Ht'. rewrite Hl in Ht'.
  injection Ht' as <-. discriminate Hs'.
Qed.

(** X11: [watch_run] does not look for the callback among the
    subscriptions that are there: registered twice for a run, a callback
    is called twice for an event both cursors let through, after the calls
    to the earlier subscribers; one [unwatch_run] then takes both
    subscriptions away. *)
Theorem watch_run_twice_calls_twice w held run c1 c2 cb timeout1 la1 timeout2 la2
    tid t tbl id event :
  raises_exceptions_only behaviour ->
  _watcher_thread w = Some held ->
  threads w !! tid = Some t -> status t = Running -> started_flag t = true ->
  Py.lacks delim run = true ->
  fetch_event tbl id = Some event ->
  c1 + 1 < id -> c2 + 1 < id ->
  let before := default [] (_handlers_dict w !! run) in
  let w2 := (watch_run run c2 cb timeout2 la2
               (watch_run run c1 cb timeout1 la1 w).1.1).1.1 in
  let w3 := listener_turn behaviour tid
              {| notif := Some (notify_payload run id); table := tbl |} w2 in
  invoked (effects w3) =
    invoked (effects w) ++ calls_to id event before ++ [(cb, event); (cb, event)] /\
  default [] (_handlers_dict (unwatch_run run cb w2) !! run) =
    filter (fun h => py_eq (callback h) cb = false) before.
Proof.
  intros Hexc Hheld Ht Hs Hst Hrun Hf H1 H2 before w2 w3.
  assert (w2 = register run c2 cb (register run c1 cb w)) as Hw2.
  { subst w2. rewrite (watch_run_held _ _ _ _ _ _ _ Hheld). simpl.
    by rewrite (watch_run_held run c2 cb timeout2 la2 (register run c1 cb w) held). }
  assert (_handlers_dict w2 !! run =
          Some (before ++ [mkCallbackAfterCursor (c1 + 1) cb;
                           mkCallbackAfterCursor (c2 + 1) cb])) as Hd.
  { rewrite Hw2, register_lookup, register_lookup. simpl.
    by rewrite <- app_assoc. }
  split.
  - subst w3.
    rewrite (listener_turn_dispatch behaviour tid t _ w2 run id
               (before ++ [mkCallbackAfterCursor (c1 + 1) cb;
                           mkCallbackAfterCursor (c2 + 1) cb]) event);
      [|by rewrite Hw2|done|done| |exact Hd|exact Hf].
    2:{ eexists. split; [done|]. by apply decode_notify_payload. }
    rewrite run_callbacks_complete by done. simpl.
    rewrite Hw2. simpl. rewrite calls_to_app. do 2 f_equal.
    unfold calls_to. simpl.
    by rewrite (proj2 (Z.ltb_lt _ _) H1), (proj2 (Z.ltb_lt _ _) H2).
  - rewrite unwatch_run_handlers, Hd. simpl.
    rewrite filter_app.
    rewrite filter_cons_False by (simpl; by rewrite py_eq_refl).
    rewrite filter_cons_False by (simpl; by rewrite py_eq_refl).
    by rewrite filter_nil, app_nil_r.
Qed.

End MoreDispatch.

(** ** More on the registry and the lifecycle *)

Lemma watch_run_handlers run c cb timeout la w :
  let r := watch_run run c cb timeout la w in
  _handlers_dict r.1.1 =
  match r.1.2 with
  | None => <[run := default [] (_handlers_dict w !! run)
                       ++ [mkCallbackAfterCursor (c + 1) cb]]> (_handlers_dict w)
  | Some _ => _handlers_dict w
  end.
Proof.
  unfold watch_run. destruct (_watcher_thread w); [done|].
  by destruct (Event_wait timeout la) as [held []].
Qed.

Lemma watch_run_effects run c cb timeout la w :
  effects (watch_run run c cb timeout la w).1.1 = effects w.
Proof.
  unfold watch_run. destruct (_watcher_thread w); [done|].
  by destruct (Event_wait timeout la) as [held []].
Qed.

Section MoreLifecycle.

Variable behaviour : list (Callback * EventLogEntry) -> Callback -> EventLogEntry -> Outcome.
Context {tables : UnicodeTables}.

(** X12: in every history of a watcher, [watch_run] followed by
    [unwatch_run] for the same run and a callback that was not subscribed
    to it gives back the registry as it was, whether the [watch_run]
    registered or raised. *)
Theorem watch_then_unwatch ops run c cb timeout la :
  let w := run_ops behaviour ops new_watcher in
  not_subscribed run cb w ->
  _handlers_dict (unwatch_run run cb (watch_run run c cb timeout la w).1.1)
    = _handlers_dict w.
Proof.
  intros w Hns.
  pose proof (history_consistent behaviour ops) as Hc. fold w in Hc.
  pose proof (watch_run_consistent run c cb timeout la w Hc) as Hc1.
  pose proof (watch_run_handlers run c cb timeout la w) as Hd. cbv zeta in Hd.
  set (w1 := (watch_run run c cb timeout la w).1.1) in *.
  destruct (watch_run run c cb timeout la w).1.2.
  - (* raised: nothing was registered *)
    rewrite unwatch_run_absent; [done|done|].
    intros h. rewrite Hd. apply Hns.
  - unfold unwatch_run. rewrite Hd, lookup_insert_eq. simpl.
    rewrite filter_app, (filter_all _ _ Hns).
    rewrite filter_cons_False by (simpl; by rewrite py_eq_refl).
    rewrite filter_nil, app_nil_r.
    destruct (_handlers_dict w !! run) as [hs|] eqn:Hrun; simpl.
    + destruct hs as [|h hs]; [by destruct (proj2 (proj2 Hc) run [] Hrun)|].
      by rewrite insert_insert_eq, insert_id.
    + by apply delete_insert_id.
Qed.

(** X13: in every history of a watcher, a second [unwatch_run] with the
    same arguments changes nothing. *)
Theorem unwatch_run_idempotent ops run cb :
  let w := run_ops behaviour ops new_watcher in
  unwatch_run run cb (unwatch_run run cb w) = unwatch_run run cb w.
Proof.
  intros w. apply unwatch_run_absent.
  - apply unwatch_run_consistent, history_consistent.
  - apply unwatch_run_not_subscribed.
Qed.

(** X14: a [watch_run] that raised for want of the started event has
    registered nothing but has left its thread in the handle; every
    [watch_run] after it, whatever its timeout, registers and returns at
    once without waiting for that thread, and until the thread is
    listening it takes no notification. *)
Theorem watch_run_after_failed_start w run c cb timeout la :
  _watcher_thread w = None ->
  ~ signalled_within la timeout ->
  let w1 := (watch_run run c cb timeout la w).1.1 in
  _handlers_dict w1 = _handlers_dict w /\
  _watcher_thread w1 = Some (length (threads w)) /\
  (forall run' c' cb' timeout' la',
     watch_run run' c' cb' timeout' la' w1 = (register run' c' cb' w1, None, 0)) /\
  (forall run' c' cb' timeout' la' y,
     let w2 := (watch_run run' c' cb' timeout' la' w1).1.1 in
     listener_turn behaviour (length (threads w)) y w2 = w2).
Proof.
  intros Hnone Hn w1.
  assert (w1 =
    {| _handlers_dict := _handlers_dict w;
       _watcher_thread_exit := Some (length (threads w));
       _watcher_thread_started := Some (length (threads w));
       _watcher_thread := Some (length (threads w));
       threads := threads w ++
         [ {| exit_flag := false; started_flag := false; status := Running |} ];
       effects := effects w |}) as Hw1.
  { subst w1. rewrite (watch_run_unheld _ _ _ _ _ _ Hnone).
    by rewrite (Event_wait_not_signalled _ _ Hn). }
  assert (forall run' c' cb' timeout' la',
     watch_run run' c' cb' timeout' la' w1 = (register run' c' cb' w1, None, 0))
    as Hnext.
  { intros. apply (watch_run_held _ _ _ _ _ _ (length (threads w))).
    by rewrite Hw1. }
  split; [by rewrite Hw1|]. split; [by rewrite Hw1|]. split; [exact Hnext|].
  intros run' c' cb' timeout' la' y w2. subst w2.
  rewrite Hnext. simpl. unfold listener_turn. simpl. rewrite Hw1. simpl.
  rewrite lookup_app_r by lia. by rewrite Nat.sub_diag.
Qed.

(** X15: [close] leaves the registry as it is.  In every history of a
    watcher, after a [close] and a [watch_run] whose listener comes up in
    time, the new thread dispatches a notification for the run to the
    subscribers from before the [close] and then to the new one. *)
Theorem close_keeps_subscriptions ops pending run c cb timeout t tbl id event :
  raises_exceptions_only behaviour ->
  t <= Z.max 0 timeout ->
  Py.lacks delim run = true ->
  fetch_event tbl id = Some event ->
  let w := run_ops behaviour ops new_watcher in
  let w1 := (close behaviour pending w).1 in
  let w2 := (watch_run run c cb timeout (Some t) w1).1.1 in
  let w3 := listener_turn behaviour (length (threads w))
              {| notif := Some (notify_payload run id); table := tbl |} w2 in
  _handlers_dict w1 = _handlers_dict w /\
  invoked (effects w3) =
    invoked (effects w1) ++
    calls_to id event (default [] (_handlers_dict w !! run)) ++
    (if bool_decide (c + 1 < id) then [(cb, event)] else []).
Proof.
  intros Hexc Ht Hrun Hf w w1 w2 w3.
  pose proof (history_consistent behaviour ops) as Hc. fold w in Hc.
  assert (_handlers_dict w1 = _handlers_dict w) as Hd1.
  { subst w1. rewrite close_consistent_eq by done.
    destruct (_watcher_thread w) as [held|] eqn:E; [|done]. simpl.
    apply (moves_trans _ _ _ (set_exit_moves held w)
             (join_moves behaviour held pending (set_exit held w))). }
  split; [exact Hd1|].
  assert (_watcher_thread w1 = None) as Hnone.
  { subst w1. rewrite close_consistent_eq by done.
    by destruct (_watcher_thread w) eqn:E. }
  assert (length (threads w1) = length (threads w)) as Hlen
    by apply close_threads_length.
  assert (Event_wait timeout (Some t) = (Z.max 0 t, true)) as Hwait.
  { unfold Event_wait. by rewrite (proj2 (Z.leb_le _ _) Ht). }
  assert (threads w2 !! length (threads w) =
          Some {| exit_flag := false; started_flag := true; status := Running |})
    as Hth.
  { subst w2. rewrite (watch_run_unheld _ _ _ _ _ _ Hnone), Hwait. simpl.
    rewrite lookup_app_r by lia. by rewrite Hlen, Nat.sub_diag. }
  assert (_handlers_dict w2 !! run =
          Some (default [] (_handlers_dict w !! run)
                ++ [mkCallbackAfterCursor (c + 1) cb])) as Hd2.
  { subst w2. rewrite (watch_run_unheld _ _ _ _ _ _ Hnone), Hwait. simpl.
    rewrite Hd1. apply lookup_insert_eq. }
  subst w3.
  rewrite (listener_turn_dispatch behaviour _ _ _ w2 run id
             (default [] (_handlers_dict w !! run)
              ++ [mkCallbackAfterCursor (c + 1) cb]) event Hth eq_refl eq_refl);
    [| |exact Hd2|exact Hf].
  2:{ eexists. split; [done|]. by apply decode_notify_payload. }
  rewrite run_callbacks_complete by done. simpl.
  subst w2. rewrite watch_run_effects, calls_to_app. do 2 f_equal.
  unfold calls_to. simpl. destruct (Z.ltb_spec (c + 1) id).
  - by rewrite bool_decide_eq_true_2.
  - by rewrite bool_decide_eq_false_2 by lia.
Qed.

End MoreLifecycle.

(** ** From the writer to the subscribers *)

Lemma fetch_after_store
    (values : EventLogEntry -> bool -> gmap string SqlValue)
    (sup : string -> bool) (cols : string) event cache db :
  ids_below db -> next_id db <= MAX_ID ->
  fetch_event (event_logs (store_event values sup cols event cache db).1.2)
    (next_id db) = Some event.
Proof.
  intros Hbelow Hlim.
  destruct (store_event_log values sup cols event cache db Hlim) as (-> & _).
  rewrite fetch_event_app.
  rewrite (fetch_event_below _ (next_id db)) by (done || lia).
  unfold fetch_event. simpl. by rewrite Z.eqb_refl.
Qed.

Section WriterToSubscribers.

Variable behaviour : list (Callback * EventLogEntry) -> Callback -> EventLogEntry -> Outcome.
Context {tables : UnicodeTables}.
Variable values : EventLogEntry -> bool -> gmap string SqlValue.
Variable sup : string -> bool.
Variable cols : string.

(** X18: in a database filled by [store_event] calls, with an id of the
    sequence left, the payload that one more call sends for an event of a watched run (its id free of the
    delimiter), taken by a running listener, makes the listener call, with
    the very event that was stored, every subscriber of that run whose
    cursor is below the new id, in the order of registration; the thread
    goes on. *)
Theorem stored_event_reaches_subscribers events event w tid t handlers :
  raises_exceptions_only behaviour ->
  threads w !! tid = Some t -> status t = Running -> started_flag t = true ->
  Py.lacks delim (run_id event) = true ->
  _handlers_dict w !! run_id event = Some handlers ->
  Z.of_nat (length events) < MAX_ID ->
  let s := store_events values sup cols events (∅, empty_database) in
  let s' := store_event values sup cols event s.1 s.2 in
  let id := 1 + Z.of_nat (length events) in
  let payload := notify_payload (run_id event) id in
  let w' := listener_turn behaviour tid
              {| notif := Some payload; table := event_logs s'.1.2 |} w in
  last (notified s'.1.2) = Some payload /\
  invoked (effects w') = invoked (effects w) ++ calls_to id event handlers /\
  alive w' tid.
Proof.
  intros Hexc Ht Hs Hst Hrun Hd Hlen s s' id payload w'.
  assert (next_id s.2 = id) as Hid.
  { subst s id. apply (store_events_next_id values sup cols). lia. }
  assert (next_id s.2 <= MAX_ID) as Hlim by (rewrite Hid; subst id; lia).
  split.
  { subst s' payload. rewrite <- Hid.
    destruct (store_event_log values sup cols event s.1 s.2 Hlim) as (_ & _ & ->).
    apply last_snoc. }
  assert (fetch_event (event_logs s'.1.2) id = Some event) as Hf.
  { subst s'. rewrite <- Hid. apply fetch_after_store; [|done].
    apply store_events_ids_below. }
  subst w'.
  rewrite (listener_turn_dispatch behaviour tid t _ w (run_id event) id
             handlers event Ht Hs Hst); [| |exact Hd|exact Hf].
  2:{ eexists. split; [done|]. by apply decode_notify_payload. }
  rewrite run_callbacks_complete by done. simpl.
  split; [done|]. unfold alive. simpl.
  rewrite list_lookup_insert_eq by (by apply lookup_lt_Some in Ht).
  eexists. split; [done|]. done.
Qed.

End WriterToSubscribers.


(** ** The storage's side *)

Section StorageFacts.

Variable behaviour : list (Callback * EventLogEntry) -> Callback -> EventLogEntry -> Outcome.
Context {tables : UnicodeTables}.

Lemma apply_storage_op_consistent s o :
  (forall w, _event_watcher s = Some w -> consistent w) ->
  forall w, _event_watcher (apply_storage_op behaviour s o) = Some w -> consistent w.
Proof.
  intros Hs w. destruct o as [run c cb la|run cb|pending|tid|tid y]; simpl.
  - unfold watch.
    destruct (watch_run run c cb 15 la _) as [[w' err] held] eqn:Hw. simpl.
    intros [= <-].
    change w' with (w', err, held).1.1. rewrite <- Hw.
    apply watch_run_consistent.
    destruct (_event_watcher s) as [w0|]; [by apply Hs|apply new_watcher_consistent].
  - unfold end_watch. destruct (_event_watcher s) as [w0|] eqn:Hw0; [|by rewrite Hw0].
    simpl. intros [= <-]. by apply unwatch_run_consistent, Hs.
  - unfold dispose. destruct (_disposed s); [apply Hs|].
    destruct (_event_watcher s) as [w0|] eqn:Hw0; [|done].
    destruct (close behaviour pending w0) as [w' r] eqn:Hcl. simpl.
    intros [= <-]. change w' with (w', r).1. rewrite <- Hcl.
    by apply close_consistent, Hs.
  - unfold on_watcher. simpl. destruct (_event_watcher s) as [w0|]; [|done].
    simpl. intros [= <-].
    eapply moves_consistent; [apply listener_listening_moves|by apply Hs].
  - unfold on_watcher. simpl. destruct (_event_watcher s) as [w0|]; [|done].
    simpl. intros [= <-].
    eapply moves_consistent; [apply listener_turn_moves|by apply Hs].
Qed.

Lemma storage_history_consistent sops s :
  (forall w, _event_watcher s = Some w -> consistent w) ->
  forall w, _event_watcher (run_storage_ops behaviour sops s) = Some w -> consistent w.
Proof.
  revert s. induction sops as [|o sops IH]; intros s Hs; simpl; [done|].
  apply IH. by apply apply_storage_op_consistent.
Qed.

(** The first [dispose] of a storage whose watcher is consistent. *)
Lemma first_dispose s pending :
  (forall w, _event_watcher s = Some w -> consistent w) ->
  _disposed s = false ->
  _disposed (dispose behaviour pending s).1 = true /\
  forall w', _event_watcher (dispose behaviour pending s).1 = Some w' ->
    _watcher_thread w' = None /\ forall tid, ~ alive w' tid.
Proof.
  intros Hc Hd. unfold dispose. rewrite Hd.
  destruct (_event_watcher s) as [w0|] eqn:Hw0; [|done].
  pose proof (close_stops behaviour pending w0 (Hc w0 eq_refl)) as Hdead.
  assert (_watcher_thread (close behaviour pending w0).1 = None) as Hnone.
  { rewrite close_consistent_eq by (by apply Hc).
    by destruct (_watcher_thread w0) eqn:E. }
  destruct (close behaviour pending w0) as [w1 r1]. simpl.
  split; [done|]. by intros w' [= <-].
Qed.


(** X16: [dispose] works once.  After the first [dispose] of a storage, a
    [watch] whose listener comes up within the 15 ticks of the default
    timeout starts a thread and registers; a further [dispose] changes
    nothing and leaves that thread alive and in the handle. *)
Theorem dispose_works_once sops pending0 pending run c cb t :
  t <= 15 ->
  let s0 := run_storage_ops behaviour sops new_storage in
  _disposed s0 = false ->
  let s := (dispose behaviour pending0 s0).1 in
  let r := watch run c cb (Some t) s in
  r.1.2 = None /\
  dispose behaviour pending r.1.1 = (r.1.1, Closed) /\
  exists w tid,
    _event_watcher (dispose behaviour pending r.1.1).1 = Some w /\
    _watcher_thread w = Some tid /\ alive w tid /\
    is_Some (_handlers_dict w !! run).
Proof.
  intros Ht s0 Hd0 s r.
  destruct (first_dispose s0 pending0) as (Hd & Hstop); [|done|].
  { apply storage_history_consistent. intros w [=]. }
  fold s in Hd, Hstop.
  assert (Event_wait 15 (Some t) = (Z.max 0 t, true)) as Hwait.
  { unfold Event_wait. by rewrite (proj2 (Z.leb_le t (Z.max 0 15)) ltac:(lia)). }
  set (w0 := match _event_watcher s with Some w => w | None => new_watcher end).
  assert (_watcher_thread w0 = None) as Hnone.
  { subst w0. destruct (_event_watcher s) as [w|]; [|done]. by apply (Hstop w). }
  assert (r = ({| _disposed := true;
                  _event_watcher := Some (watch_run run c cb 15 (Some t) w0).1.1;
                  _secondary_index_cache := _secondary_index_cache s |},
               (watch_run run c cb 15 (Some t) w0).1.2,
               (watch_run run c cb 15 (Some t) w0).2)) as Hr.
  { subst r. unfold watch. fold w0. rewrite Hd.
    by destruct (watch_run run c cb 15 (Some t) w0) as [[w' err] held]. }
  rewrite Hr. simpl.
  rewrite (watch_run_unheld _ _ _ _ _ _ Hnone), Hwait. simpl.
  split; [done|]. split; [done|].
  eexists _, (length (threads w0)). split; [done|]. simpl.
  split; [done|]. split.
  - exists {| exit_flag := false; started_flag := true; status := Running |}.
    split; [|done]. simpl.
    rewrite lookup_app_r by lia. by rewrite Nat.sub_diag.
  - rewrite lookup_insert_eq. eauto.
Qed.

End StorageFacts.

(** ** The further theorems at sample inputs *)

Lemma store_event_fetch_witness :
  let events := [Samples.step_event "r1" 10; Samples.step_event "r1" 20] in
  let event := Samples.step_event "r1" 30 in
  let s := store_events Samples.entry_values Samples.index_enabled Samples.index_cols
             events (∅, empty_database) in
  let s' := store_event Samples.entry_values Samples.index_enabled Samples.index_cols
              event s.1 s.2 in
  Z.of_nat (length events) < MAX_ID /\
  next_id s.2 = 3 /\
  fetch_event (event_logs s.2) 3 = None /\
  fetch_event (event_logs s'.1.2) 3 = Some event /\
  last (notified s'.1.2) = Some "r1_3".
Proof.
  intros events event s s'.
  pose proof (store_event_fetch Samples.entry_values Samples.index_enabled
                Samples.index_cols events event eq_refl)
    as (H0 & H1 & H2 & _ & H4 & _).
  split; [reflexivity|].
  vm_compute in H0, H1, H2, H4. vm_compute.
  split; [exact H0|]. split; [exact H1|]. split; [exact H2|exact H4].
Defined.

Lemma store_events_log_witness :
  let events := [Samples.step_event "r1" 10; Samples.step_event "r1" 20] in
  let db := (store_events Samples.entry_values Samples.index_enabled
               Samples.index_cols events (∅, empty_database)).2 in
  Z.of_nat (length events) <= MAX_ID /\
  row_id <$> event_logs db = [1; 2] /\
  next_id db = 3 /\
  notified db = ["r1_1"; "r1_2"].
Proof.
  intros events db.
  pose proof (store_events_log Samples.entry_values Samples.index_enabled
                Samples.index_cols events
                (Z.lt_le_incl (Z.of_nat (length events)) MAX_ID eq_refl))
    as (H1 & _ & _ & H4 & H5).
  split; [exact (Z.lt_le_incl (Z.of_nat (length events)) MAX_ID eq_refl)|].
  vm_compute in H1, H4, H5. vm_compute.
  split; [exact H1|]. split; [exact H4|exact H5].
Defined.

Lemma store_event_asset_gate_witness :
  let event := Samples.asset_event ASSET_OBSERVATION "k" "r1" 100 in
  let s := store_event Samples.entry_values Samples.index_enabled Samples.index_cols
             event ∅ empty_database in
  next_id empty_database <= MAX_ID /\
  dagster_event event
    = Some {| event_type := ASSET_OBSERVATION; asset_key := Some "k" |} /\
  s.2 = None /\
  asset_row "k" (asset_keys s.1.2) =
    Some {[ "last_materialization_timestamp" := SqlTimestamp 100 ]}.
Proof.
  intros event s.
  assert (ASSET_OBSERVATION <> OTHER_EVENT) as Hne by discriminate.
  pose proof (proj1 (proj2 (proj2 (proj2
                (store_event_asset_gate Samples.entry_values Samples.index_enabled
                   Samples.index_cols event ∅ empty_database
                   (Z.lt_le_incl (next_id empty_database) MAX_ID eq_refl)))))
                _ "k" eq_refl Hne eq_refl) as H.
  split; [exact (Z.lt_le_incl (next_id empty_database) MAX_ID eq_refl)|].
  split; [reflexivity|].
  cbv zeta in H.
  match type of H with (if ?d then _ else _) => destruct d as [Hv|_] end.
  { exfalso.
    exact (insert_non_empty (M:=gmap string) ∅ "last_materialization_timestamp"
             (SqlTimestamp 100) Hv). }
  destruct H as (H1 & H2 & _).
  vm_compute in H1, H2. vm_compute. exact (conj H1 H2).
Defined.

Lemma has_secondary_index_sticky_witness :
  let e1 := Samples.asset_event ASSET_OBSERVATION "k" "r1" 100 in
  let e2 := Samples.asset_event ASSET_OBSERVATION "k" "r2" 200 in
  let s1 := store_asset_event Samples.entry_values Samples.index_enabled
              Samples.index_cols e1 ∅ empty_database in
  let s2 := store_asset_event Samples.entry_values MoreSamples.index_disabled
              Samples.index_cols e2 s1.1.1 s1.1.2 in
  entry_asset_key e1 = Some "k" /\ entry_asset_key e2 = Some "k" /\
  Samples.entry_values e1 true <> ∅ /\ Samples.entry_values e2 true <> ∅ /\
  s2.2 = None /\
  asset_row "k" (asset_keys s2.1.2) =
    Some {[ "last_materialization_timestamp" := SqlTimestamp 200 ]}.
Proof.
  intros e1 e2 s1 s2.
  assert (Samples.entry_values e1 true <> ∅) as Hv1
    by exact (insert_non_empty (M:=gmap string) ∅ "last_materialization_timestamp"
                (SqlTimestamp 100)).
  assert (Samples.entry_values e2 true <> ∅) as Hv2
    by exact (insert_non_empty (M:=gmap string) ∅ "last_materialization_timestamp"
                (SqlTimestamp 200)).
  pose proof (proj2 (has_secondary_index_sticky Samples.entry_values
                Samples.index_enabled MoreSamples.index_disabled
                Samples.index_cols ∅)
                e1 e2 "k" empty_database eq_refl eq_refl) as (_ & _ & _ & H1 & H2).
  specialize (H2 Hv1 Hv2).
  split; [reflexivity|]. split; [reflexivity|].
  split; [exact Hv1|]. split; [exact Hv2|].
  vm_compute in H1, H2. vm_compute. exact (conj H1 H2).
Defined.

Lemma enable_secondary_index_asks_again_witness :
  let cache := (has_secondary_index MoreSamples.index_disabled "n" ∅).2 in
  cache !! "n" = Some false /\
  (has_secondary_index Samples.index_enabled "n" cache).1 = false /\
  (has_secondary_index Samples.index_enabled "n"
     (enable_secondary_index "n" cache)).1 = true /\
  enable_secondary_index "m" cache = cache.
Proof.
  intros cache.
  pose proof (enable_secondary_index_asks_again MoreSamples.index_disabled
                Samples.index_enabled "n" ∅) as (_ & _ & _ & H).
  pose proof (enable_secondary_index_asks_again MoreSamples.index_disabled
                Samples.index_enabled "m" cache) as (_ & _ & H' & _).
  split; [reflexivity|]. split; [reflexivity|]. split; [exact H|].
  apply H'. reflexivity.
Defined.

Lemma unwatched_notification_dropped_witness :
  let w := Samples.watching_after_0 in
  let y := Samples.notification "r9_x" Samples.two_events in
  unpack_payload "r9_x" = Some ("r9", "x") /\
  Py.int "x" = None /\
  _handlers_dict w !! "r9" = None /\
  listener_turn Samples.quiet 0 y w = w.
Proof.
  intros w y.
  split; [reflexivity|]. split; [reflexivity|]. split; [reflexivity|].
  exact (unwatched_notification_dropped Samples.quiet 0%nat y w "r9_x" "r9" "x"
           eq_refl eq_refl eq_refl).
Defined.

Lemma delimiter_in_run_id_ends_listener_witness :
  let event := Samples.step_event "run_2" 20 in
  let db := (Samples.append (Samples.step_event "r1" 10) (∅, empty_database)).2 in
  let w' := listener_turn Samples.quiet 0
              (Samples.notification (notify_payload "run_2" 2) MoreSamples.with_delimiter)
              Samples.watching_after_0 in
  Py.lacks delim (run_id event) = false /\
  last (notified MoreSamples.with_delimiter) = Some "run_2_2" /\
  status <$> threads w' !! 0%nat = Some (Died ValueError) /\
  effects w' = no_effects.
Proof.
  intros event db w'.
  pose proof (delimiter_in_run_id_ends_listener Samples.quiet Samples.entry_values
                Samples.index_enabled Samples.index_cols event ∅ db 0%nat
                {| exit_flag := false; started_flag := true; status := Running |}
                Samples.watching_after_0 eq_refl eq_refl eq_refl eq_refl)
    as (H1 & H2 & H3 & _).
  split; [reflexivity|].
  split; [exact H1|]. split; [exact H2|exact H3].
Defined.

Lemma malformed_index_ends_listener_witness :
  let w' := listener_turn Samples.quiet 0
              (Samples.notification "r1_x" Samples.two_events)
              Samples.watching_after_0 in
  unpack_payload "r1_x" = Some ("r1", "x") /\
  Py.int "x" = None /\
  status <$> threads w' !! 0%nat = Some (Died ValueError) /\
  effects w' = no_effects.
Proof.
  intros w'.
  pose proof (malformed_index_ends_listener Samples.quiet 0%nat
                {| exit_flag := false; started_flag := true; status := Running |}
                (Samples.notification "r1_x" Samples.two_events)
                Samples.watching_after_0 "r1_x" "r1" "x"
                eq_refl eq_refl eq_refl eq_refl eq_refl
                (ex_intro _ [mkCallbackAfterCursor 1 7%nat] eq_refl) eq_refl)
    as (H1 & H2 & _).
  split; [reflexivity|]. split; [reflexivity|]. split; [exact H1|exact H2].
Defined.

Lemma exit_checked_on_timeout_witness :
  let w := Samples.watching_after_0 in
  let timeout := {| notif := None; table := [] |} in
  listener_turn Samples.quiet 0 timeout w = w /\
  status <$> threads (listener_turn Samples.quiet 0 timeout (set_exit 0 w)) !! 0%nat
    = Some Finished.
Proof.
  intros w timeout.
  pose proof (exit_checked_on_timeout Samples.quiet 0%nat
                {| exit_flag := false; started_flag := true; status := Running |}
                w eq_refl eq_refl eq_refl) as (H1 & _ & H3 & _).
  split; [exact (H1 [] eq_refl)|exact (proj1 (H3 []))].
Defined.

Lemma base_exception_ends_listener_witness :
  let event := Samples.step_event "r1" 20 in
  let w' := listener_turn MoreSamples.first_exits 0
              (Samples.notification (notify_payload "r1" 2) Samples.two_events)
              Samples.two_watchers in
  _handlers_dict Samples.two_watchers !! "r1"
    = Some [mkCallbackAfterCursor 1 1%nat; mkCallbackAfterCursor 1 2%nat] /\
  invoked (effects w') = [(Function 1, event)] /\
  logged (effects w') = [] /\
  status <$> threads w' !! 0%nat = Some (Died (Uncaught "SystemExit")).
Proof.
  intros event w'.
  assert (forall history h' name', h' ∈ @nil CallbackAfterCursor ->
            MoreSamples.first_exits history (callback h') event
              <> Raises (BaseExceptionOnly name')) as Hpre.
  { intros history h' name' Hin. by apply elem_of_nil in Hin. }
  pose proof (base_exception_ends_listener MoreSamples.first_exits 0%nat
                {| exit_flag := false; started_flag := true; status := Running |}
                (Samples.notification (notify_payload "r1" 2) Samples.two_events)
                Samples.two_watchers (notify_payload "r1" 2) "r1" 2
                [] (mkCallbackAfterCursor 1 1%nat) [mkCallbackAfterCursor 1 2%nat]
                event "SystemExit"
                eq_refl eq_refl eq_refl eq_refl eq_refl eq_refl eq_refl
                Hpre eq_refl eq_refl) as (H1 & H2 & H3 & _).
  split; [reflexivity|]. split; [exact H1|]. split; [exact H2|exact H3].
Defined.

Lemma watch_run_twice_calls_twice_witness :
  let event := Samples.step_event "r1" 30 in
  let w2 := (watch_run "r1" 1 9%nat 15 None
               (watch_run "r1" 0 9%nat 15 None Samples.watching_after_0).1.1).1.1 in
  let w3 := listener_turn Samples.quiet 0
              (Samples.notification (notify_payload "r1" 3) Samples.three_events) w2 in
  invoked (effects w3) = [(Function 7, event); (Function 9, event); (Function 9, event)] /\
  _handlers_dict (unwatch_run "r1" 9%nat w2) !! "r1"
    = Some [mkCallbackAfterCursor 1 7%nat].
Proof.
  intros event w2 w3.
  assert (0 + 1 < 3) as H01 by lia. assert (1 + 1 < 3) as H11 by lia.
  pose proof (watch_run_twice_calls_twice Samples.quiet Samples.watching_after_0
                0%nat "r1" 0 1 9%nat 15 None 15 None 0%nat
                {| exit_flag := false; started_flag := true; status := Running |}
                (event_logs Samples.three_events) 3 event
                quiet_raises_exceptions_only eq_refl eq_refl eq_refl eq_refl
                eq_refl eq_refl H01 H11) as (H & _).
  split; [exact H|reflexivity].
Defined.

Lemma watch_then_unwatch_witness :
  let w := run_ops Samples.quiet Samples.two_watches new_watcher in
  not_subscribed "r1" 5%nat w /\
  _handlers_dict (unwatch_run "r1" 5%nat (watch_run "r1" 0 5%nat 15 None w).1.1)
    = _handlers_dict w.
Proof.
  intros w.
  assert (not_subscribed "r1" 5%nat w) as Hns.
  { intros h Hh.
    change (h ∈ [mkCallbackAfterCursor 1 1%nat; mkCallbackAfterCursor 1 2%nat]) in Hh.
    apply elem_of_cons in Hh as [->|Hh]; [reflexivity|].
    apply elem_of_cons in Hh as [->|Hh]; [reflexivity|].
    by apply elem_of_nil in Hh. }
  split; [exact Hns|].
  exact (watch_then_unwatch Samples.quiet Samples.two_watches "r1" 0 5%nat 15 None Hns).
Defined.

Lemma watch_run_after_failed_start_witness :
  let r1 := watch_run "r1" 0 7%nat 15 None new_watcher in
  let r2 := watch_run "r1" 0 7%nat 15 None r1.1.1 in
  r1.1.2 = Some WatcherNeverStarted /\
  r2.1.2 = None /\ r2.2 = 0 /\ length (threads r2.1.1) = 1%nat /\
  listener_turn Samples.quiet 0
    (Samples.notification (notify_payload "r1" 2) Samples.two_events) r2.1.1 = r2.1.1.
Proof.
  intros r1 r2.
  assert (~ signalled_within None 15) as Hn by (intros (t & Ht & _); discriminate Ht).
  pose proof (watch_run_after_failed_start Samples.quiet new_watcher "r1" 0 7%nat 15
                None eq_refl Hn) as (_ & _ & H3 & H4).
  split; [reflexivity|].
  pose proof (H3 "r1" 0 7%nat 15 None) as Hr2. fold r1 in Hr2. fold r2 in Hr2.
  rewrite Hr2. split; [reflexivity|]. split; [reflexivity|]. split; [reflexivity|].
  rewrite <- Hr2. apply H4.
Defined.

Lemma close_keeps_subscriptions_witness :
  let event := Samples.step_event "r1" 20 in
  let w := run_ops Samples.quiet Samples.two_watches new_watcher in
  let w1 := (close Samples.quiet [] w).1 in
  let w2 := (watch_run "r1" 0 3%nat 15 (Some 0) w1).1.1 in
  let w3 := listener_turn Samples.quiet 1
              (Samples.notification (notify_payload "r1" 2) Samples.two_events) w2 in
  _handlers_dict w1 = _handlers_dict w /\
  invoked (effects w3) = [(Function 1, event); (Function 2, event); (Function 3, event)].
Proof.
  intros event w w1 w2 w3.
  assert (0 <= Z.max 0 15) as Ht by lia.
  pose proof (close_keeps_subscriptions Samples.quiet Samples.two_watches [] "r1" 0
                3%nat 15 0 (event_logs Samples.two_events) 2 event
                quiet_raises_exceptions_only Ht eq_refl eq_refl) as (H1 & H2).
  split; [exact H1|exact H2].
Defined.

Lemma dispose_works_once_witness :
  let s := (dispose Samples.quiet [] new_storage).1 in
  let r := watch "r1" 0 7%nat (Some 0) s in
  _disposed new_storage = false /\
  r.1.2 = None /\
  dispose Samples.quiet [] r.1.1 = (r.1.1, Closed) /\
  exists w, _event_watcher r.1.1 = Some w /\ alive w 0.
Proof.
  intros s r.
  assert (0 <= 15) as Ht by lia.
  pose proof (dispose_works_once Samples.quiet [] [] [] "r1" 0 7%nat 0 Ht eq_refl)
    as (H1 & H2 & _).
  split; [reflexivity|]. split; [exact H1|]. split; [exact H2|].
  eexists. split; [reflexivity|]. eexists. split; reflexivity.
Defined.


Lemma stored_event_reaches_subscribers_witness :
  let event := Samples.step_event "r1" 20 in
  let w' := listener_turn Samples.quiet 0
              (Samples.notification (notify_payload "r1" 2) Samples.two_events)
              Samples.watching_after_0 in
  last (notified Samples.two_events) = Some (notify_payload "r1" 2) /\
  invoked (effects w') = [(Function 7, event)] /\
  alive w' 0.
Proof.
  intros event w'.
  exact (stored_event_reaches_subscribers Samples.quiet Samples.entry_values
           Samples.index_enabled Samples.index_cols [Samples.step_event "r1" 10]
           event Samples.watching_after_0 0%nat
           {| exit_flag := false; started_flag := true; status := Running |}
           [mkCallbackAfterCursor 1 7%nat]
           quiet_raises_exceptions_only eq_refl eq_refl eq_refl eq_refl eq_refl
           eq_refl).
Defined.
